(** * The search-query token editor ([useQueryBuilderState])

    A shallow embedding of the reducer behind [useQueryBuilderState] and of
    the string-editing functions it dispatches to, together with the
    properties of the token-tree-to-string mutation algorithm.

    Strings are JavaScript strings: finite sequences of UTF-16 code units.
    Offsets are JavaScript numbers holding integers, modelled in [Z]. *)

From Stdlib Require Import List ZArith NArith Lia Bool String Ascii.
Import ListNotations.

(** ** JavaScript string and array primitives used by the reducer *)

Module JS.

(** A string is its sequence of code units. *)
Definition jsstring : Type := list N.

(** A literal, for ASCII text. *)
Definition lit (s : string) : jsstring :=
  List.map N_of_ascii (list_ascii_of_string s).

Definition length (s : jsstring) : Z := Z.of_nat (List.length s).

(** [a === b] on strings. *)
Fixpoint eqb (a b : jsstring) : bool :=
  match a, b with
  | [], [] => true
  | x :: a', y :: b' => N.eqb x y && eqb a' b'
  | _, _ => false
  end.

(** [String.prototype.substring(start, end)]: both arguments are clamped
    to [0, length] and swapped when [start > end]. *)
Definition clamp (len x : Z) : Z := Z.min (Z.max x 0) len.

Definition substring (s : jsstring) (start end_ : Z) : jsstring :=
  let len := length s in
  let finalStart := clamp len start in
  let finalEnd := clamp len end_ in
  let from := Z.min finalStart finalEnd in
  let to := Z.max finalStart finalEnd in
  firstn (Z.to_nat (to - from)) (skipn (Z.to_nat from) s).

(** [substring(start)]: the end defaults to the length. *)
Definition substring_from (s : jsstring) (start : Z) : jsstring :=
  substring s start (length s).

(** WhiteSpace and LineTerminator code units, the ones [trim] strips. *)
Definition isWhiteSpace (c : N) : bool :=
  ((9 <=? c) && (c <=? 13)                (* TAB LF VT FF CR *)
   || (c =? 32) || (c =? 160)             (* SP, NBSP *)
   || (c =? 5760)                         (* U+1680 *)
   || (8192 <=? c) && (c <=? 8202)        (* U+2000 .. U+200A *)
   || (c =? 8232) || (c =? 8233)          (* LS, PS *)
   || (c =? 8239) || (c =? 8287)          (* U+202F, U+205F *)
   || (c =? 12288) || (c =? 65279))%N.    (* U+3000, BOM *)

Fixpoint trimStart (s : jsstring) : jsstring :=
  match s with
  | [] => []
  | c :: s' => if isWhiteSpace c then trimStart s' else s
  end.

Definition trimEnd (s : jsstring) : jsstring := rev (trimStart (rev s)).

Definition trim (s : jsstring) : jsstring := trimEnd (trimStart s).

(** [Array.prototype.join(separator)] on an array of strings. *)
Fixpoint join (separator : jsstring) (xs : list jsstring) : jsstring :=
  match xs with
  | [] => []
  | [x] => x
  | x :: rest => x ++ separator ++ join separator rest
  end.

(** [Array.prototype.includes]. *)
Definition includes (xs : list jsstring) (x : jsstring) : bool :=
  existsb (eqb x) xs.

(** [Array.prototype.slice(0, -1)]. *)
Definition slice_0_m1 {A : Type} (xs : list A) : list A := removelast xs.

(** [Set]: insertion ordered; adding a member again changes nothing. *)
Definition Set_add (s : list jsstring) (x : jsstring) : list jsstring :=
  if includes s x then s else s ++ [x].

(** [Array.from(new Set(xs))]. *)
Definition Array_from_Set (xs : list jsstring) : list jsstring :=
  fold_left Set_add xs [].

(** How a call completes: with a value, or by throwing. *)
Inductive Error : Type := TypeError.

Inductive completion (A : Type) : Type :=
| Normal (a : A)
| Throw (e : Error).

Arguments Normal {A} a.
Arguments Throw {A} e.

End JS.

Import JS.

Declare Scope js_scope.
Delimit Scope js_scope with js.
Notation "'`' s '`'" := (lit s) (at level 0, s at level 0, format "'`' s '`'") : js_scope.
Local Open Scope js_scope.
Local Open Scope Z_scope.

(** ** The parser's tokens (['sentry/components/searchSyntax/parser']) *)

(** Modelled from the spec: the parser's [Token] enumeration is declared
    outside these sources; the kinds are the ones the data model lists
    (free text, spaces, filter, text list, number list, other value kinds). *)
Inductive Token : Type :=
| SPACES
| FILTER
| FREE_TEXT
| KEY_SIMPLE
| VALUE_TEXT
| VALUE_NUMBER
| VALUE_BOOLEAN
| VALUE_TEXT_LIST
| VALUE_NUMBER_LIST.

(** Modelled from the spec: the parser's [TermOperator] enumeration is
    declared outside these sources (default/equality, not-equal, and the
    greater/less variants). *)
Inductive TermOperator : Type :=
| DEFAULT
| GREATER_THAN_EQUAL
| LESS_THAN_EQUAL
| GREATER_THAN
| LESS_THAN
| EQUAL
| NOT_EQUAL.

Definition TermOperator_eqb (a b : TermOperator) : bool :=
  match a, b with
  | DEFAULT, DEFAULT | GREATER_THAN_EQUAL, GREATER_THAN_EQUAL
  | LESS_THAN_EQUAL, LESS_THAN_EQUAL | GREATER_THAN, GREATER_THAN
  | LESS_THAN, LESS_THAN | EQUAL, EQUAL | NOT_EQUAL, NOT_EQUAL => true
  | _, _ => false
  end.

Record Position : Type := { offset : Z }.

Record Location : Type := { start : Position; end_ : Position }.

(** The nested value of a list item: [item.value], which may be missing. *)
Record ItemValue : Type := {
  item_text : jsstring;
  item_location : Location
}.

Record ListItem : Type := {
  separator : jsstring;
  item_value : option ItemValue
}.

(** [TokenResult<Token>] for the tokens other than filters.  [items] is the
    field of the two list kinds; the code reads it for those kinds only. *)
Record TokenResult : Type := {
  type : Token;
  text : jsstring;
  location : Location;
  items : list ListItem
}.

(** [TokenResult<Token.FILTER>]. *)
Record FilterToken : Type := {
  filter_text : jsstring;
  filter_location : Location;
  key : TokenResult;
  operator : TermOperator;
  negated : bool;
  value : TokenResult
}.

(** A filter seen as a plain token: what the functions that only read
    [location] receive when they are handed a filter. *)
Definition asToken (f : FilterToken) : TokenResult :=
  {| type := FILTER; text := filter_text f;
     location := filter_location f; items := [] |}.

(** ** State and actions *)

Record QueryBuilderState : Type := { query : jsstring }.

Inductive QueryBuilderActions : Type :=
| DeleteTokenAction (token : TokenResult)
| UpdateFreeTextAction (token : TokenResult) (text : jsstring)
| UpdateFilterOpAction (token : FilterToken) (op : TermOperator)
| UpdateTokenValueAction (token : TokenResult) (value : jsstring)
| MultiSelectFilterValueAction (token : FilterToken) (value : jsstring)
| DeleteLastMultiSelectFilterValueAction (token : FilterToken)
| UntypedAction (tag : string).
  (** an object outside the declared union: it carries a [type] tag and
      none of the payload fields *)

(** [action.type]. *)
Definition action_type (action : QueryBuilderActions) : string :=
  match action with
  | DeleteTokenAction _ => "DELETE_TOKEN"
  | UpdateFreeTextAction _ _ => "UPDATE_FREE_TEXT"
  | UpdateFilterOpAction _ _ => "UPDATE_FILTER_OP"
  | UpdateTokenValueAction _ _ => "UPDATE_TOKEN_VALUE"
  | MultiSelectFilterValueAction _ _ => "TOGGLE_FILTER_VALUE"
  | DeleteLastMultiSelectFilterValueAction _ =>
      "DELETE_LAST_MULTI_SELECT_FILTER_VALUE"
  | UntypedAction tag => tag
  end.

(** ** The token mutators *)

Definition removeQueryToken (query : jsstring) (token : TokenResult) : jsstring :=
  substring query 0 (offset (start (location token)))
  ++ substring_from query (offset (end_ (location token))).

Definition replaceQueryToken
  (query : jsstring) (token : TokenResult) (value : jsstring) : jsstring :=
  let start := substring query 0 (offset (start (location token))) in
  let end_ := substring_from query (offset (end_ (location token))) in
  start ++ value ++ end_.

Definition replaceTokenWithPadding
  (query : jsstring) (token : TokenResult) (value : jsstring) : jsstring :=
  let start := substring query 0 (offset (start (location token))) in
  let end_ := substring_from query (offset (end_ (location token))) in
  trim (trimEnd start ++ `" "` ++ trim value ++ `" "` ++ trimStart end_).

Definition updateFreeText
  (state : QueryBuilderState) (token : TokenResult) (text : jsstring)
  : QueryBuilderState :=
  let newQuery := replaceTokenWithPadding (query state) token text in
  {| query := newQuery |}.

Definition uniqNonEmptyValues (values : list jsstring) : list jsstring :=
  Array_from_Set (filter (fun value => 0 <? JS.length value) values).

(** [uniqNonEmptyValues[0]] is read only when the array has one element;
    the default of [nth] stands for [undefined] and is never reached. *)
Definition updateFilterMultipleValues
  (state : QueryBuilderState) (token : FilterToken) (values : list jsstring)
  : QueryBuilderState :=
  let uniqNonEmptyValues := uniqNonEmptyValues values in
  if (List.length uniqNonEmptyValues =? 0)%nat then
    {| query := replaceQueryToken (query state) (value token) [] |}
  else
    let newValue :=
      if (1 <? List.length uniqNonEmptyValues)%nat
      then `"["` ++ join `","` uniqNonEmptyValues ++ `"]"`
      else nth 0 uniqNonEmptyValues [] in
    {| query := replaceQueryToken (query state) (value token) newValue |}.

(** [item.value?.text ?? ''] *)
Definition itemText (item : ListItem) : jsstring :=
  match item_value item with
  | Some v => item_text v
  | None => []
  end.

Definition isListType (t : Token) : bool :=
  match t with
  | VALUE_TEXT_LIST | VALUE_NUMBER_LIST => true
  | _ => false
  end.

Definition multiSelectTokenValue
  (state : QueryBuilderState) (token : FilterToken) (value_ : jsstring)
  : QueryBuilderState :=
  let tokenValue := value token in
  if isListType (type tokenValue) then
    let values := List.map itemText (items tokenValue) in
    let containsValue := includes values value_ in
    let newValues :=
      if containsValue
      then filter (fun value => negb (eqb value value_)) values
      else values ++ [value_] in
    updateFilterMultipleValues state token newValues
  else
    if eqb (text tokenValue) value_ then
      updateFilterMultipleValues state token [[]]
    else
      updateFilterMultipleValues state token [text tokenValue; value_].

Definition deleteLastMultiSelectTokenValue
  (state : QueryBuilderState) (token : FilterToken) : QueryBuilderState :=
  let tokenValue := value token in
  if isListType (type tokenValue) then
    let newValues := List.map itemText (slice_0_m1 (items tokenValue)) in
    updateFilterMultipleValues state token newValues
  else
    updateFilterMultipleValues state token [[]].

Section Stringifier.

(** ['sentry/components/searchSyntax/utils'.stringifyToken], the external
    stringifier, at the one call the reducer makes: on a filter token. *)
Variable stringifyToken : FilterToken -> jsstring.

(** The function assigns [token.operator] and [token.negated] in place;
    the token as it is left is returned next to the string. *)
Definition modifyFilterOperator
  (query : jsstring) (token : FilterToken) (newOperator : TermOperator)
  : jsstring * FilterToken :=
  let isNotEqual := TermOperator_eqb newOperator NOT_EQUAL in
  let token :=
    {| filter_text := filter_text token;
       filter_location := filter_location token;
       key := key token;
       operator := if isNotEqual then DEFAULT else newOperator;
       negated := isNotEqual;
       value := value token |} in
  (substring query 0 (offset (start (filter_location token)))
   ++ stringifyToken token
   ++ substring_from query (offset (end_ (filter_location token))),
   token).

(** The reducer of [useQueryBuilderState].  A [case] whose payload is
    missing reads a property of [undefined], which throws. *)
Definition reducer (state : QueryBuilderState) (action : QueryBuilderActions)
  : completion QueryBuilderState :=
  let tag := action_type action in
  if (tag =? "DELETE_TOKEN")%string then
    match action with
    | DeleteTokenAction token =>
        Normal {| query := removeQueryToken (query state) token |}
    | _ => Throw TypeError
    end
  else if (tag =? "UPDATE_FREE_TEXT")%string then
    match action with
    | UpdateFreeTextAction token text => Normal (updateFreeText state token text)
    | _ => Throw TypeError
    end
  else if (tag =? "UPDATE_FILTER_OP")%string then
    match action with
    | UpdateFilterOpAction token op =>
        Normal {| query := fst (modifyFilterOperator (query state) token op) |}
    | _ => Throw TypeError
    end
  else if (tag =? "UPDATE_TOKEN_VALUE")%string then
    match action with
    | UpdateTokenValueAction token value =>
        Normal {| query := replaceQueryToken (query state) token value |}
    | _ => Throw TypeError
    end
  else if (tag =? "TOGGLE_FILTER_VALUE")%string then
    match action with
    | MultiSelectFilterValueAction token value =>
        Normal (multiSelectTokenValue state token value)
    | _ => Throw TypeError
    end
  else if (tag =? "DELETE_LAST_MULTI_SELECT_FILTER_VALUE")%string then
    match action with
    | DeleteLastMultiSelectFilterValueAction token =>
        Normal (deleteLastMultiSelectTokenValue state token)
    | _ => Throw TypeError
    end
  else Normal state.

End Stringifier.

(** ** The specification's vocabulary *)

Module Spec.

(** [Q[0:s]] and [Q[e:]]. *)
Definition upto (Q : jsstring) (s : Z) : jsstring := firstn (Z.to_nat s) Q.

Definition from (Q : jsstring) (e : Z) : jsstring := skipn (Z.to_nat e) Q.

(** A span [[s,e)] that lies inside [Q]. *)
Definition inBounds (Q : jsstring) (l : Location) : Prop :=
  0 <= offset (start l) /\ offset (start l) <= offset (end_ l)
  /\ offset (end_ l) <= JS.length Q.

(** Removal of duplicates that keeps, of each value, its first occurrence. *)
Fixpoint dedupe (xs : list jsstring) : list jsstring :=
  match xs with
  | [] => []
  | x :: xs' => x :: filter (fun y => negb (eqb y x)) (dedupe xs')
  end.

Definition nonEmpty (v : jsstring) : bool :=
  match v with [] => false | _ :: _ => true end.

(** The list rule: duplicates and empty values go first; then no value is
    the empty literal, one value is the bare literal, more are one
    bracketed, comma-separated literal. *)
Definition serialize (values : list jsstring) : jsstring :=
  match dedupe (filter nonEmpty values) with
  | [] => []
  | [v] => v
  | vs => `"["` ++ join `","` vs ++ `"]"`
  end.

(** Free-text replacement as the component design words it: the text before
    the span with its trailing whitespace trimmed, the replacement, the text
    after the span with its leading whitespace trimmed, joined by single
    spaces, and the whole trimmed. *)
Definition replaceFreeText (Q : jsstring) (l : Location) (r : jsstring) : jsstring :=
  trim (trimEnd (upto Q (offset (start l))) ++ `" "` ++ r ++ `" "`
        ++ trimStart (from Q (offset (end_ l)))).

(** The values a value token stands for: the item texts of a list, the text
    of a scalar. *)
Definition content (tv : TokenResult) : list jsstring :=
  if isListType (type tv) then List.map itemText (items tv) else [text tv].

(** Modelled from the spec: the external parser is not part of these
    sources.  [reparsed values tv] says that [tv] is a value token for the
    literal the list rule writes for [values]: a scalar with empty text for
    no value, a scalar with that text for one value, a list token with one
    item per value, in order, for more. *)
Definition reparsed (values : list jsstring) (tv : TokenResult) : Prop :=
  match dedupe (filter nonEmpty values) with
  | [] => isListType (type tv) = false /\ text tv = []
  | [v] => isListType (type tv) = false /\ text tv = v
  | vs => isListType (type tv) = true /\ List.map itemText (items tv) = vs
  end.

(** The membership toggle: on a list, the candidate is appended when absent
    and every occurrence of it is removed when present; a scalar equal to
    the candidate leaves no value; a scalar that differs leaves the pair
    of the current value and the candidate. *)
Definition toggled (tv : TokenResult) (v : jsstring) : list jsstring :=
  if isListType (type tv) then
    let values := List.map itemText (items tv) in
    if includes values v
    then filter (fun x => negb (eqb x v)) values
    else values ++ [v]
  else if eqb (text tv) v then [] else [text tv; v].

(** The same toggle on a plain list of values. *)
Definition flip (values : list jsstring) (v : jsstring) : list jsstring :=
  if includes values v
  then filter (fun x => negb (eqb x v)) values
  else values ++ [v].

(** The toggle on a list that holds no duplicate and no empty value: a
    member is taken out; a non-empty value that is not a member goes last. *)
Definition flipKept (kept : list jsstring) (v : jsstring) : list jsstring :=
  filter (fun x => negb (eqb x v)) kept
  ++ (if nonEmpty v && negb (includes kept v) then [v] else []).

(** A dispatch that returns a state whose query satisfies [P]. *)
Definition lands (c : completion QueryBuilderState) (P : jsstring -> Prop) : Prop :=
  exists R, c = Normal {| query := R |} /\ P R.

(** At most one space. *)
Definition pad (p : jsstring) : Prop := p = [] \/ p = `" "`.

(** The list rule's literal, spelled out value by value: nothing for no
    value, the value itself for one, and for more an opening bracket, the
    first value, each further value behind a comma, and a closing
    bracket. *)
Definition literal (kept : list jsstring) : jsstring :=
  match kept with
  | [] => []
  | [v] => v
  | v :: more =>
      `"["` ++ v ++ List.concat (List.map (fun w => `","` ++ w) more) ++ `"]"`
  end.

(** Modelled from the spec: the external stringifier is not part of these
    sources.  Its contract for a filter: the canonical text reproduces the
    text of the key and the text of the value unchanged; what stands before
    the key ([lead]) and between the key and the value ([mark]) depends on
    the operator and the negation only. *)
Definition canonical
  (stringifyToken : FilterToken -> jsstring)
  (lead mark : TermOperator -> bool -> jsstring) : Prop :=
  forall f,
    stringifyToken f
    = lead (operator f) (negated f) ++ text (key f)
      ++ mark (operator f) (negated f) ++ text (value f).

(** The six recognized intents. *)
Definition recognized : list string :=
  ["DELETE_TOKEN"; "UPDATE_FREE_TEXT"; "UPDATE_FILTER_OP"; "UPDATE_TOKEN_VALUE";
   "TOGGLE_FILTER_VALUE"; "DELETE_LAST_MULTI_SELECT_FILTER_VALUE"]%string.

(** [R] keeps the text of [Q] outside the span verbatim. *)
Definition framed (Q : jsstring) (l : Location) (R : jsstring) : Prop :=
  exists mid, R = upto Q (offset (start l)) ++ mid ++ from Q (offset (end_ l)).

(** A list item without its nested value dropped from a value token. *)
Definition hasValue (item : ListItem) : bool :=
  match item_value item with Some _ => true | None => false end.

Definition dropMissing (f : FilterToken) : FilterToken :=
  {| filter_text := filter_text f;
     filter_location := filter_location f;
     key := key f;
     operator := operator f;
     negated := negated f;
     value := {| type := type (value f); text := text (value f);
                 location := location (value f);
                 items := filter hasValue (items (value f)) |} |}.

End Spec.

(** ** Sample tokens, as the parser records them *)

Module Sample.

Definition span (s e : Z) : Location :=
  {| start := {| offset := s |}; end_ := {| offset := e |} |}.

Definition word (t : Token) (s : string) (a b : Z) : TokenResult :=
  {| type := t; text := lit s; location := span a b; items := [] |}.

Definition item (sep s : string) (a b : Z) : ListItem :=
  {| separator := lit sep;
     item_value := Some {| item_text := lit s; item_location := span a b |} |}.

Definition filterOf (src : string) (k v : TokenResult) : FilterToken :=
  {| filter_text := lit src;
     filter_location := span 0 (JS.length (lit src));
     key := k; operator := DEFAULT; negated := false; value := v |}.

(** [assigned:[me,team]] *)
Definition assigned_me_team : FilterToken :=
  filterOf "assigned:[me,team]" (word KEY_SIMPLE "assigned" 0 8)
    {| type := VALUE_TEXT_LIST; text := `"[me,team]"`; location := span 9 18;
       items := [item EmptyString "me" 10 12; item "," "team" 13 17] |}.

(** [assigned:team] *)
Definition assigned_team : FilterToken :=
  filterOf "assigned:team" (word KEY_SIMPLE "assigned" 0 8)
    (word VALUE_TEXT "team" 9 13).

(** [assigned:[team,me]] *)
Definition assigned_team_me : FilterToken :=
  filterOf "assigned:[team,me]" (word KEY_SIMPLE "assigned" 0 8)
    {| type := VALUE_TEXT_LIST; text := `"[team,me]"`; location := span 9 18;
       items := [item EmptyString "team" 10 14; item "," "me" 15 17] |}.

(** [assigned:me] *)
Definition assigned_me : FilterToken :=
  filterOf "assigned:me" (word KEY_SIMPLE "assigned" 0 8)
    (word VALUE_TEXT "me" 9 11).

(** [k:x], a filter to write sample values into. *)
Definition k_x : FilterToken :=
  filterOf "k:x" (word KEY_SIMPLE "k" 0 1) (word VALUE_TEXT "x" 2 3).

(** A stringifier for the samples: negation mark, key, colon, value. *)
Definition stringifySample (f : FilterToken) : jsstring :=
  (if negated f then `"!"` else []) ++ text (key f) ++ `":"` ++ text (value f).

(** [assigned:[me,team,x]] *)
Definition assigned_me_team_x : FilterToken :=
  filterOf "assigned:[me,team,x]" (word KEY_SIMPLE "assigned" 0 8)
    {| type := VALUE_TEXT_LIST; text := `"[me,team,x]"`; location := span 9 20;
       items := [item EmptyString "me" 10 12; item "," "team" 13 17;
                 item "," "x" 18 19] |}.

(** [assigned:[me,,team]]: the second item has no nested value. *)
Definition assigned_me_gap_team : FilterToken :=
  filterOf "assigned:[me,,team]" (word KEY_SIMPLE "assigned" 0 8)
    {| type := VALUE_TEXT_LIST; text := `"[me,,team]"`; location := span 9 19;
       items := [item EmptyString "me" 10 12;
                 {| separator := `","`; item_value := None |};
                 item "," "team" 14 18] |}.

(** The operators as they are written. *)
Definition glyph (op : TermOperator) : jsstring :=
  match op with
  | DEFAULT => []
  | GREATER_THAN_EQUAL => `">="`
  | LESS_THAN_EQUAL => `"<="`
  | GREATER_THAN => `">"`
  | LESS_THAN => `"<"`
  | EQUAL => `"="`
  | NOT_EQUAL => `"!="`
  end.

(** A stringifier that writes the operator too: negation mark, key, colon,
    operator, value. *)
Definition stringifyFilter (f : FilterToken) : jsstring :=
  (if negated f then `"!"` else []) ++ text (key f)
  ++ (`":"` ++ glyph (operator f)) ++ text (value f).

End Sample.

(** ** The audit log list: who is shown for an entry *)

Module AuditLog.

(** The fields of [User] that the two display functions read.  [email] may
    be [undefined]. *)
Record User : Type := {
  isSuperuser : bool;
  name : jsstring;
  email : option jsstring
}.

(** What [getAvatarDisplay] renders: [<SentryAvatar type="system" />] or
    [<UserAvatar user={logEntryUser} />]; [None] is [null]. *)
Inductive Avatar : Type :=
| SentryAvatar
| UserAvatar (user : User).

Definition getAvatarDisplay (logEntryUser : option User) : option Avatar :=
  match logEntryUser with
  | Some user =>
      if isSuperuser user
         || (eqb (name user) `"Sentry"`
             && match email user with None => true | Some _ => false end)
      then Some SentryAvatar
      else Some (UserAvatar user)
  | None => None
  end.

(** What [addUsernameDisplay] renders: the name, with the staff tag for a
    superuser; [None] is [null]. *)
Inductive NameDisplay : Type :=
| NameWithStaffTag (shown : jsstring)
| Name (shown : jsstring).

Definition addUsernameDisplay (logEntryUser : option User) : option NameDisplay :=
  match logEntryUser with
  | Some user =>
      if isSuperuser user
      then Some (NameWithStaffTag (name user))
      else Some (Name (name user))
  | None => None
  end.

End AuditLog.

(** A string of whitespace only. *)
Definition blank (s : jsstring) : Prop := trimStart s = [].

(** Closes a goal that a concrete span lies inside a concrete query. *)
Ltac in_bounds := unfold Spec.inBounds; cbn; lia.

(** ** Strings: equality, substrings, trimming *)

Lemma eqb_eq (a b : jsstring) : eqb a b = true <-> a = b.
Proof.
  revert b; induction a as [|x a IH]; intros [|y b]; simpl;
    try (split; [discriminate | congruence]); try tauto.
  rewrite andb_true_iff, N.eqb_eq, IH. split.
  - intros [-> ->]; reflexivity.
  - intros H; inversion H; auto.
Qed.

Lemma eqb_refl (a : jsstring) : eqb a a = true.
Proof. apply eqb_eq; reflexivity. Qed.

Lemma eqb_neq (a b : jsstring) : eqb a b = false <-> a <> b.
Proof.
  rewrite <- eqb_eq. destruct (eqb a b); split; congruence.
Qed.

Lemma eqb_sym (a b : jsstring) : eqb a b = eqb b a.
Proof.
  destruct (eqb b a) eqn:E.
  - apply eqb_eq. apply eqb_eq in E. congruence.
  - apply eqb_neq. apply eqb_neq in E. congruence.
Qed.

Lemma includes_In (xs : list jsstring) (x : jsstring) :
  includes xs x = true <-> In x xs.
Proof.
  unfold includes. rewrite existsb_exists. split.
  - intros [y [Hy E]]. apply eqb_eq in E. subst. assumption.
  - intros H. exists x. split; [assumption | apply eqb_refl].
Qed.

Lemma includes_not_In (xs : list jsstring) (x : jsstring) :
  includes xs x = false <-> ~ In x xs.
Proof.
  rewrite <- includes_In. destruct (includes xs x); split; congruence.
Qed.

Lemma length_nonneg (s : jsstring) : 0 <= JS.length s.
Proof. unfold JS.length. lia. Qed.

Lemma substring_prefix (Q : jsstring) (s : Z) :
  0 <= s <= JS.length Q -> substring Q 0 s = Spec.upto Q s.
Proof.
  intros H. unfold substring, clamp, Spec.upto.
  replace (Z.min (Z.max 0 0) (JS.length Q)) with 0 by lia.
  replace (Z.min (Z.max s 0) (JS.length Q)) with s by lia.
  replace (Z.min 0 s) with 0 by lia.
  replace (Z.max 0 s - 0) with s by lia.
  reflexivity.
Qed.

Lemma substring_suffix (Q : jsstring) (e : Z) :
  0 <= e <= JS.length Q -> substring_from Q e = Spec.from Q e.
Proof.
  intros H. unfold substring_from, substring, clamp, Spec.from.
  pose proof (length_nonneg Q) as HQ.
  replace (Z.min (Z.max (JS.length Q) 0) (JS.length Q)) with (JS.length Q) by lia.
  replace (Z.min (Z.max e 0) (JS.length Q)) with e by lia.
  replace (Z.min e (JS.length Q)) with e by lia.
  replace (Z.max e (JS.length Q)) with (JS.length Q) by lia.
  apply firstn_all2. rewrite length_skipn. unfold JS.length in *. lia.
Qed.

Lemma substring_between (Q : jsstring) (s e : Z) :
  0 <= s -> s <= e -> e <= JS.length Q ->
  Spec.upto Q s ++ substring Q s e ++ Spec.from Q e = Q.
Proof.
  intros H1 H2 H3. unfold substring, clamp, Spec.upto, Spec.from.
  replace (Z.min (Z.max s 0) (JS.length Q)) with s by lia.
  replace (Z.min (Z.max e 0) (JS.length Q)) with e by lia.
  replace (Z.min s e) with s by lia.
  replace (Z.max s e) with e by lia.
  replace (Z.to_nat e) with (Z.to_nat (e - s) + Z.to_nat s)%nat by lia.
  rewrite <- skipn_skipn, firstn_skipn. apply firstn_skipn.
Qed.

(** ** The insertion-ordered set and the list rule *)

Lemma filter_filter_comm {A : Type} (p q : A -> bool) (l : list A) :
  filter p (filter q l) = filter q (filter p l).
Proof.
  induction l as [|x l IH]; simpl; [reflexivity|].
  destruct (q x) eqn:Eq, (p x) eqn:Ep; simpl; rewrite ?Eq, ?Ep, IH; reflexivity.
Qed.

Lemma filter_andb {A : Type} (p q : A -> bool) (l : list A) :
  filter p (filter q l) = filter (fun x => p x && q x) l.
Proof.
  induction l as [|x l IH]; simpl; [reflexivity|].
  destruct (q x) eqn:Eq; simpl; rewrite ?andb_true_r, ?andb_false_r.
  - destruct (p x); rewrite IH; reflexivity.
  - exact IH.
Qed.

Lemma filter_absorb (p : jsstring -> bool) (x : jsstring) (l : list jsstring) :
  p x = false ->
  filter p (filter (fun y => negb (eqb y x)) l) = filter p l.
Proof.
  intros Hx. induction l as [|y l IH]; simpl; [reflexivity|].
  destruct (eqb y x) eqn:E; simpl.
  - apply eqb_eq in E. subst y. rewrite Hx. exact IH.
  - rewrite IH. reflexivity.
Qed.

Lemma dedupe_filter (p : jsstring -> bool) (l : list jsstring) :
  Spec.dedupe (filter p l) = filter p (Spec.dedupe l).
Proof.
  induction l as [|x l IH]; simpl; [reflexivity|].
  destruct (p x) eqn:Ep; simpl.
  - rewrite IH, filter_filter_comm. reflexivity.
  - rewrite IH, filter_absorb by assumption. reflexivity.
Qed.

Lemma dedupe_In (x : jsstring) (l : list jsstring) :
  In x (Spec.dedupe l) <-> In x l.
Proof.
  induction l as [|y l IH]; simpl; [tauto|].
  rewrite filter_In, IH, negb_true_iff, eqb_neq.
  destruct (eqb x y) eqn:E.
  - apply eqb_eq in E. subst. tauto.
  - apply eqb_neq in E. split; [tauto|]. intros [H|H]; [auto | right; auto].
Qed.

Lemma dedupe_NoDup (l : list jsstring) : NoDup (Spec.dedupe l).
Proof.
  induction l as [|y l IH]; simpl; constructor.
  - rewrite filter_In, negb_true_iff, eqb_neq. tauto.
  - apply NoDup_filter. assumption.
Qed.

Lemma Set_from_acc (xs acc : list jsstring) :
  fold_left Set_add xs acc
  = acc ++ Spec.dedupe (filter (fun x => negb (includes acc x)) xs).
Proof.
  revert acc; induction xs as [|x xs IH]; intros acc; simpl.
  - rewrite app_nil_r. reflexivity.
  - unfold Set_add at 2. destruct (includes acc x) eqn:E; simpl.
    + apply IH.
    + rewrite IH, <- app_assoc. simpl. do 2 f_equal.
      rewrite <- dedupe_filter, filter_andb. f_equal.
      apply filter_ext. intros y.
      unfold includes. rewrite existsb_app. simpl.
      rewrite orb_false_r, negb_orb, andb_comm. reflexivity.
Qed.

Lemma Array_from_Set_dedupe (xs : list jsstring) :
  Array_from_Set xs = Spec.dedupe xs.
Proof.
  unfold Array_from_Set. rewrite Set_from_acc. simpl.
  f_equal. clear. induction xs as [|x xs IH]; simpl; congruence.
Qed.

Lemma length_positive_nonEmpty (l : list jsstring) :
  filter (fun value => 0 <? JS.length value) l = filter Spec.nonEmpty l.
Proof.
  apply filter_ext. intros [|c v]; reflexivity.
Qed.

Lemma uniqNonEmptyValues_dedupe (values : list jsstring) :
  uniqNonEmptyValues values = Spec.dedupe (filter Spec.nonEmpty values).
Proof.
  unfold uniqNonEmptyValues.
  rewrite Array_from_Set_dedupe, length_positive_nonEmpty. reflexivity.
Qed.

Lemma nonEmpty_true (v : jsstring) : Spec.nonEmpty v = true <-> v <> [].
Proof. destruct v; simpl; split; congruence. Qed.

Lemma uniqNonEmptyValues_In (values : list jsstring) (x : jsstring) :
  In x (uniqNonEmptyValues values) <-> In x values /\ x <> [].
Proof.
  rewrite uniqNonEmptyValues_dedupe, dedupe_In, filter_In, nonEmpty_true.
  tauto.
Qed.

Lemma uniqNonEmptyValues_NoDup (values : list jsstring) :
  NoDup (uniqNonEmptyValues values).
Proof. rewrite uniqNonEmptyValues_dedupe. apply dedupe_NoDup. Qed.

Lemma updateFilterMultipleValues_serialize
  (state : QueryBuilderState) (token : FilterToken) (values : list jsstring) :
  updateFilterMultipleValues state token values
  = {| query := replaceQueryToken (query state) (value token)
                  (Spec.serialize values) |}.
Proof.
  unfold updateFilterMultipleValues, Spec.serialize.
  rewrite uniqNonEmptyValues_dedupe.
  destruct (Spec.dedupe (filter Spec.nonEmpty values)) as [|v [|w vs]];
    reflexivity.
Qed.

Lemma replaceQueryToken_inBounds
  (Q : jsstring) (token : TokenResult) (v : jsstring) :
  Spec.inBounds Q (location token) ->
  replaceQueryToken Q token v
  = Spec.upto Q (offset (start (location token))) ++ v
    ++ Spec.from Q (offset (end_ (location token))).
Proof.
  intros (H1 & H2 & H3). unfold replaceQueryToken.
  rewrite substring_prefix, substring_suffix by lia. reflexivity.
Qed.

(** ** Trimming *)

Lemma blank_forallb (s : jsstring) :
  blank s <-> forallb isWhiteSpace s = true.
Proof.
  unfold blank. induction s as [|c s IH]; simpl; [tauto|].
  destruct (isWhiteSpace c); simpl; [exact IH|]. split; discriminate.
Qed.

Lemma blank_dec (s : jsstring) : {blank s} + {~ blank s}.
Proof.
  unfold blank. destruct (trimStart s); [left | right]; congruence.
Qed.

Lemma blank_rev (s : jsstring) : blank (rev s) <-> blank s.
Proof.
  rewrite !blank_forallb, !forallb_forall.
  split; intros H x Hx; apply H.
  - apply -> in_rev. exact Hx.
  - apply <- in_rev. exact Hx.
Qed.

Lemma blank_space : blank `" "`.
Proof. reflexivity. Qed.

Lemma trimStart_app_blank (A X : jsstring) :
  blank A -> trimStart (A ++ X) = trimStart X.
Proof.
  unfold blank. induction A as [|c A IH]; simpl; [reflexivity|].
  destruct (isWhiteSpace c); [exact IH | discriminate].
Qed.

Lemma trimStart_app_solid (A X : jsstring) :
  ~ blank A -> trimStart (A ++ X) = trimStart A ++ X.
Proof.
  unfold blank. induction A as [|c A IH]; simpl; [congruence|].
  destruct (isWhiteSpace c); [exact IH | reflexivity].
Qed.

Lemma trimStart_head (s t : jsstring) (c : N) :
  trimStart s = c :: t -> isWhiteSpace c = false.
Proof.
  induction s as [|d s IH]; simpl; [discriminate|].
  destruct (isWhiteSpace d) eqn:E; [exact IH|]. congruence.
Qed.

Lemma trimStart_solid_head (c : N) (t : jsstring) :
  isWhiteSpace c = false -> trimStart (c :: t) = c :: t.
Proof. intros H. simpl. rewrite H. reflexivity. Qed.

Lemma trimStart_idem (s : jsstring) : trimStart (trimStart s) = trimStart s.
Proof.
  destruct (trimStart s) as [|c t] eqn:E; [reflexivity|].
  apply trimStart_solid_head. exact (trimStart_head s t c E).
Qed.

Lemma trimEnd_blank (s : jsstring) : trimEnd s = [] <-> blank s.
Proof.
  unfold trimEnd. rewrite <- blank_rev. unfold blank. split.
  - intros H. apply (f_equal (@rev N)) in H.
    rewrite rev_involutive in H. exact H.
  - intros ->. reflexivity.
Qed.

Lemma trimEnd_app_blank (X A : jsstring) :
  blank A -> trimEnd (X ++ A) = trimEnd X.
Proof.
  intros H. unfold trimEnd. rewrite rev_app_distr, trimStart_app_blank.
  - reflexivity.
  - apply blank_rev. exact H.
Qed.

Lemma trimEnd_app_solid (X A : jsstring) :
  ~ blank A -> trimEnd (X ++ A) = X ++ trimEnd A.
Proof.
  intros H. unfold trimEnd. rewrite rev_app_distr, trimStart_app_solid.
  - rewrite rev_app_distr, rev_involutive. reflexivity.
  - rewrite blank_rev. exact H.
Qed.

Lemma trimEnd_idem (s : jsstring) : trimEnd (trimEnd s) = trimEnd s.
Proof.
  unfold trimEnd. rewrite rev_involutive, trimStart_idem. reflexivity.
Qed.

Lemma blank_trimStart (s : jsstring) : blank (trimStart s) <-> blank s.
Proof. unfold blank. rewrite trimStart_idem. tauto. Qed.

Lemma blank_trimEnd (s : jsstring) : blank (trimEnd s) <-> blank s.
Proof.
  split; intros H.
  - apply trimEnd_blank. rewrite <- trimEnd_idem. apply trimEnd_blank. exact H.
  - apply trimEnd_blank in H. rewrite H. reflexivity.
Qed.

(** A string that is not blank splits at its first solid code unit. *)
Lemma solid_split (s : jsstring) :
  ~ blank s ->
  exists W c t, s = W ++ c :: t /\ blank W /\ isWhiteSpace c = false.
Proof.
  unfold blank. induction s as [|d s IH]; simpl; [congruence|].
  destruct (isWhiteSpace d) eqn:E; intros H.
  - destruct (IH H) as (W & c & t & -> & HW & Hc).
    exists (d :: W), c, t. simpl. rewrite E. auto.
  - exists [], d, s. auto.
Qed.

Lemma trimEnd_keeps_head (c : N) (t : jsstring) :
  isWhiteSpace c = false -> exists t', trimEnd (c :: t) = c :: t'.
Proof.
  intros Hc. destruct (blank_dec t) as [Ht|Ht].
  - exists []. change (c :: t) with ([c] ++ t).
    rewrite trimEnd_app_blank by assumption.
    unfold trimEnd. simpl. rewrite Hc. reflexivity.
  - exists (trimEnd t). change (c :: t) with ([c] ++ t).
    rewrite trimEnd_app_solid by assumption. reflexivity.
Qed.

Lemma trimStart_trimEnd (s : jsstring) : trimStart (trimEnd s) = trim s.
Proof.
  unfold trim. destruct (blank_dec s) as [H|H].
  - pose proof H as H'. apply trimEnd_blank in H'. rewrite H'.
    unfold blank in H. rewrite H. reflexivity.
  - destruct (solid_split _ H) as (W & c & t & -> & HW & Hc).
    assert (Hs : ~ blank (c :: t)).
    { unfold blank. rewrite trimStart_solid_head by assumption. discriminate. }
    rewrite trimEnd_app_solid, !trimStart_app_blank by assumption.
    rewrite (trimStart_solid_head c t Hc).
    destruct (trimEnd_keeps_head c t Hc) as [t' E]. rewrite E.
    apply trimStart_solid_head. exact Hc.
Qed.

Lemma trim_blank (s : jsstring) : trim s = [] <-> blank s.
Proof. unfold trim. rewrite trimEnd_blank, blank_trimStart. tauto. Qed.

Lemma trimStart_trim (s : jsstring) : trimStart (trim s) = trim s.
Proof. rewrite <- trimStart_trimEnd. apply trimStart_idem. Qed.

Lemma trimEnd_trim (s : jsstring) : trimEnd (trim s) = trim s.
Proof. unfold trim. apply trimEnd_idem. Qed.

Lemma blank_trim (s : jsstring) : blank (trim s) <-> blank s.
Proof. unfold trim. rewrite blank_trimEnd, blank_trimStart. tauto. Qed.

Lemma trim_nil : trim [] = [].
Proof. reflexivity. Qed.

(** ** The padded replacement *)

Lemma padded_spelled (Q : jsstring) (token : TokenResult) (v : jsstring) :
  Spec.inBounds Q (location token) ->
  replaceTokenWithPadding Q token v
  = trim (trimEnd (Spec.upto Q (offset (start (location token))))
          ++ `" "` ++ trim v ++ `" "`
          ++ trimStart (Spec.from Q (offset (end_ (location token))))).
Proof.
  intros (H1 & H2 & H3). unfold replaceTokenWithPadding.
  rewrite substring_prefix, substring_suffix by lia. reflexivity.
Qed.

(** Whatever the three parts are, the padded result is the trimmed prefix,
    the trimmed replacement and the trimmed suffix, with at most one space
    at each of the two joins. *)
Lemma padded_shape (P r S : jsstring) :
  exists pad1 pad2,
    Spec.pad pad1 /\ Spec.pad pad2 /\
    trim (trimEnd P ++ `" "` ++ trim r ++ `" "` ++ trimStart S)
    = trim P ++ pad1 ++ trim r ++ pad2 ++ trim S.
Proof.
  pose proof blank_space as Hsp.
  unfold trim at 1, Spec.pad.
  destruct (blank_dec P) as [HP|HP], (blank_dec r) as [Hr|Hr],
    (blank_dec S) as [HS|HS].
  all: try (pose proof (proj2 (trimEnd_blank P) HP) as EP; rewrite EP;
            pose proof (proj2 (trim_blank P) HP) as EP'; rewrite EP').
  all: try (pose proof (proj2 (trim_blank r) Hr) as Er; rewrite Er).
  all: try (pose proof (proj2 (trim_blank S) HS) as ES; rewrite ES;
            pose proof HS as ES'; unfold blank in ES'; rewrite ES').
  all: simpl app.
  - (* all blank *)
    exists [], []. repeat split; auto.
  - (* only the suffix is solid *)
    exists [], []. repeat split; auto. simpl app.
    change (32%N :: 32%N :: trimStart S) with (`"  "` ++ trimStart S).
    rewrite trimStart_app_blank by reflexivity.
    rewrite trimStart_idem. reflexivity.
  - (* only the replacement is solid *)
    exists [], []. repeat split; auto. simpl app.
    change (32%N :: trim r ++ [32%N]) with (`" "` ++ trim r ++ `" "`).
    rewrite trimStart_app_blank by assumption.
    rewrite trimStart_app_solid by (rewrite blank_trim; assumption).
    rewrite trimStart_trim, trimEnd_app_blank by assumption.
    rewrite app_nil_r. apply trimEnd_trim.
  - (* replacement and suffix solid *)
    exists [], `" "`. repeat split; auto. simpl app.
    change (32%N :: trim r ++ 32%N :: trimStart S)
      with (`" "` ++ trim r ++ `" "` ++ trimStart S).
    rewrite trimStart_app_blank by assumption.
    rewrite trimStart_app_solid by (rewrite blank_trim; assumption).
    rewrite trimStart_trim.
    rewrite !app_assoc.
    rewrite trimEnd_app_solid by (rewrite blank_trimStart; assumption).
    rewrite <- !app_assoc. reflexivity.
  - (* only the prefix is solid *)
    exists [], []. repeat split; auto. simpl app.
    change (trimEnd P ++ [32%N; 32%N]) with (trimEnd P ++ `"  "`).
    rewrite trimStart_app_solid by (rewrite blank_trimEnd; assumption).
    rewrite trimStart_trimEnd, trimEnd_app_blank by reflexivity.
    rewrite app_nil_r. apply trimEnd_trim.
  - (* prefix and suffix solid *)
    exists `" "`, `" "`. repeat split; auto. simpl app.
    change (trimEnd P ++ 32%N :: 32%N :: trimStart S)
      with (trimEnd P ++ `"  "` ++ trimStart S).
    rewrite trimStart_app_solid by (rewrite blank_trimEnd; assumption).
    rewrite trimStart_trimEnd.
    rewrite !app_assoc.
    rewrite trimEnd_app_solid by (rewrite blank_trimStart; assumption).
    rewrite <- !app_assoc. reflexivity.
  - (* prefix and replacement solid *)
    exists `" "`, []. repeat split; auto. simpl app.
    change (trimEnd P ++ 32%N :: trim r ++ [32%N])
      with (trimEnd P ++ `" "` ++ trim r ++ `" "`).
    rewrite trimStart_app_solid by (rewrite blank_trimEnd; assumption).
    rewrite trimStart_trimEnd.
    rewrite !app_assoc, trimEnd_app_blank by assumption.
    rewrite trimEnd_app_solid by (rewrite blank_trim; assumption).
    rewrite trimEnd_trim, app_nil_r, <- !app_assoc. reflexivity.
  - (* all solid *)
    exists `" "`, `" "`. repeat split; auto. simpl app.
    change (trimEnd P ++ 32%N :: trim r ++ 32%N :: trimStart S)
      with (trimEnd P ++ `" "` ++ trim r ++ `" "` ++ trimStart S).
    rewrite trimStart_app_solid by (rewrite blank_trimEnd; assumption).
    rewrite trimStart_trimEnd.
    rewrite !app_assoc.
    rewrite trimEnd_app_solid by (rewrite blank_trimStart; assumption).
    rewrite <- !app_assoc. reflexivity.
Qed.

(** ** The toggle *)

Lemma multiSelectTokenValue_toggled
  (state : QueryBuilderState) (token : FilterToken) (v : jsstring) :
  multiSelectTokenValue state token v
  = {| query := replaceQueryToken (query state) (value token)
                  (Spec.serialize (Spec.toggled (value token) v)) |}.
Proof.
  unfold multiSelectTokenValue, Spec.toggled.
  destruct (isListType (type (value token))).
  - destruct (includes _ v); apply updateFilterMultipleValues_serialize.
  - destruct (eqb _ v); rewrite updateFilterMultipleValues_serialize;
      reflexivity.
Qed.

Lemma filter_neq_not_In (v : jsstring) (l : list jsstring) :
  ~ In v (filter (fun x => negb (eqb x v)) l).
Proof.
  rewrite filter_In, negb_true_iff, eqb_neq. tauto.
Qed.

Lemma filter_neq_In (v x : jsstring) (l : list jsstring) :
  x <> v -> (In x (filter (fun y => negb (eqb y v)) l) <-> In x l).
Proof.
  intros H. rewrite filter_In, negb_true_iff, eqb_neq. tauto.
Qed.

Lemma filter_neq_id (v : jsstring) (l : list jsstring) :
  ~ In v l -> filter (fun x => negb (eqb x v)) l = l.
Proof.
  induction l as [|y l IH]; simpl; intros H; [reflexivity|].
  destruct (eqb y v) eqn:E; simpl.
  - apply eqb_eq in E. tauto.
  - rewrite IH by tauto. reflexivity.
Qed.

Lemma toggled_flip (tv : TokenResult) (v : jsstring) :
  Spec.toggled tv v = Spec.flip (Spec.content tv) v.
Proof.
  unfold Spec.toggled, Spec.flip, Spec.content.
  destruct (isListType (type tv)); [reflexivity|].
  unfold includes. simpl. rewrite orb_false_r, (eqb_sym v).
  destruct (eqb (text tv) v); reflexivity.
Qed.

Lemma dedupe_app_one (l : list jsstring) (v : jsstring) :
  Spec.dedupe (l ++ [v])
  = Spec.dedupe l ++ (if includes l v then [] else [v]).
Proof.
  induction l as [|x l IH]; simpl; [reflexivity|].
  rewrite IH, filter_app. f_equal. f_equal.
  unfold includes at 2. simpl. fold (includes l v).
  destruct (includes l v); simpl.
  - rewrite orb_true_r. reflexivity.
  - rewrite orb_false_r. destruct (eqb v x); reflexivity.
Qed.

Lemma dedupe_NoDup_id (l : list jsstring) : NoDup l -> Spec.dedupe l = l.
Proof.
  induction 1 as [|x l Hx Hl IH]; simpl; [reflexivity|].
  rewrite IH, filter_neq_id by assumption. reflexivity.
Qed.

Lemma filter_idem {A : Type} (p : A -> bool) (l : list A) :
  filter p (filter p l) = filter p l.
Proof.
  rewrite filter_andb. apply filter_ext. intros x. destruct (p x); reflexivity.
Qed.

Lemma uniqNonEmptyValues_idem (l : list jsstring) :
  uniqNonEmptyValues (uniqNonEmptyValues l) = uniqNonEmptyValues l.
Proof.
  rewrite !uniqNonEmptyValues_dedupe, <- dedupe_filter, filter_idem.
  apply dedupe_NoDup_id, dedupe_NoDup.
Qed.

Lemma uniqNonEmptyValues_no_empty (l : list jsstring) :
  ~ In [] (uniqNonEmptyValues l).
Proof. rewrite uniqNonEmptyValues_In. tauto. Qed.

Lemma uniqNonEmptyValues_flip (l : list jsstring) (v : jsstring) :
  uniqNonEmptyValues (Spec.flip l v)
  = Spec.flipKept (uniqNonEmptyValues l) v.
Proof.
  unfold Spec.flip, Spec.flipKept.
  destruct (includes l v) eqn:E.
  - rewrite !uniqNonEmptyValues_dedupe, filter_filter_comm, dedupe_filter.
    rewrite <- uniqNonEmptyValues_dedupe.
    destruct (Spec.nonEmpty v) eqn:Ev; simpl; [|rewrite app_nil_r; reflexivity].
    replace (includes (uniqNonEmptyValues l) v) with true.
    + rewrite app_nil_r. reflexivity.
    + symmetry. apply includes_In, uniqNonEmptyValues_In.
      split; [apply includes_In; exact E | apply nonEmpty_true; exact Ev].
  - assert (Hv : ~ In v (uniqNonEmptyValues l)).
    { rewrite uniqNonEmptyValues_In. apply includes_not_In in E. tauto. }
    rewrite (filter_neq_id _ _ Hv).
    apply includes_not_In in Hv. rewrite Hv, andb_true_r.
    rewrite !uniqNonEmptyValues_dedupe, filter_app. simpl.
    destruct (Spec.nonEmpty v) eqn:Ev.
    + rewrite dedupe_app_one.
      replace (includes (filter Spec.nonEmpty l) v) with false; [reflexivity|].
      symmetry. apply includes_not_In. rewrite filter_In.
      apply includes_not_In in E. tauto.
    + rewrite !app_nil_r. reflexivity.
Qed.

Lemma flipKept_twice (kept : list jsstring) (v : jsstring) :
  ~ In [] kept ->
  Spec.flipKept (Spec.flipKept kept v) v
  = filter (fun x => negb (eqb x v)) kept
    ++ (if includes kept v then [v] else []).
Proof.
  intros Hne. unfold Spec.flipKept.
  destruct (Spec.nonEmpty v) eqn:Ev; simpl.
  - destruct (includes kept v) eqn:E; simpl.
    + rewrite app_nil_r, filter_idem.
      replace (includes (filter (fun x => negb (eqb x v)) kept) v) with false;
        [reflexivity|].
      symmetry. apply includes_not_In, filter_neq_not_In.
    + rewrite filter_app, filter_idem. simpl. rewrite eqb_refl. simpl.
      replace (includes (filter (fun x => negb (eqb x v)) kept ++ [v]) v)
        with true; [rewrite !app_nil_r; reflexivity|].
      symmetry. apply includes_In, in_or_app. right. left. reflexivity.
  - destruct v; [|discriminate].
    replace (includes kept []) with false
      by (symmetry; apply includes_not_In; exact Hne).
    rewrite !app_nil_r. apply filter_idem.
Qed.

Lemma reparsed_content (values : list jsstring) (tv : TokenResult) :
  Spec.reparsed values tv ->
  uniqNonEmptyValues (Spec.content tv) = uniqNonEmptyValues values.
Proof.
  unfold Spec.reparsed, Spec.content.
  rewrite <- (uniqNonEmptyValues_dedupe values).
  destruct (uniqNonEmptyValues values) as [|x [|y l]] eqn:E.
  - intros [-> ->]. reflexivity.
  - intros [-> ->]. rewrite <- E. apply uniqNonEmptyValues_idem.
  - intros [-> ->]. rewrite <- E. apply uniqNonEmptyValues_idem.
Qed.

Lemma serialize_kept (l l' : list jsstring) :
  uniqNonEmptyValues l = uniqNonEmptyValues l' ->
  Spec.serialize l = Spec.serialize l'.
Proof.
  unfold Spec.serialize. rewrite <- !uniqNonEmptyValues_dedupe.
  intros ->. reflexivity.
Qed.

Lemma itemText_dropMissing (items : list ListItem) :
  uniqNonEmptyValues (List.map itemText (filter Spec.hasValue items))
  = uniqNonEmptyValues (List.map itemText items).
Proof.
  rewrite !uniqNonEmptyValues_dedupe. f_equal.
  induction items as [|i items IH]; simpl; [reflexivity|].
  assert (Ei : Spec.hasValue i = false -> itemText i = []).
  { unfold Spec.hasValue, itemText. destruct (item_value i); congruence. }
  destruct (Spec.hasValue i); simpl.
  - rewrite IH. reflexivity.
  - rewrite Ei by reflexivity. exact IH.
Qed.

Lemma content_dropMissing (token : FilterToken) :
  uniqNonEmptyValues (Spec.content (value (Spec.dropMissing token)))
  = uniqNonEmptyValues (Spec.content (value token)).
Proof.
  unfold Spec.content. simpl.
  destruct (isListType (type (value token))); [|reflexivity].
  apply itemText_dropMissing.
Qed.

(** ** The literal, value by value *)

Lemma join_each (sep v : jsstring) (more : list jsstring) :
  join sep (v :: more) = v ++ List.concat (List.map (fun w => sep ++ w) more).
Proof.
  revert v; induction more as [|w more IH]; intros v.
  - simpl. rewrite app_nil_r. reflexivity.
  - change (join sep (v :: w :: more)) with (v ++ sep ++ join sep (w :: more)).
    rewrite IH. simpl. rewrite <- app_assoc. reflexivity.
Qed.

Lemma serialize_literal (values : list jsstring) :
  Spec.serialize values = Spec.literal (uniqNonEmptyValues values).
Proof.
  unfold Spec.serialize, Spec.literal. rewrite uniqNonEmptyValues_dedupe.
  destruct (Spec.dedupe (filter Spec.nonEmpty values)) as [|v [|w more]];
    try reflexivity.
  rewrite join_each, <- app_assoc. reflexivity.
Qed.

Lemma uniqNonEmptyValues_append (l : list jsstring) (x : jsstring) :
  uniqNonEmptyValues (l ++ [x])
  = uniqNonEmptyValues l
    ++ (if Spec.nonEmpty x && negb (includes l x) then [x] else []).
Proof.
  pose proof (uniqNonEmptyValues_flip l x) as F.
  unfold Spec.flip, Spec.flipKept in F.
  destruct (includes l x) eqn:E.
  - rewrite andb_false_r, app_nil_r.
    rewrite !uniqNonEmptyValues_dedupe, filter_app. simpl.
    destruct (Spec.nonEmpty x) eqn:Ex; [|rewrite app_nil_r; reflexivity].
    rewrite dedupe_app_one.
    replace (includes (filter Spec.nonEmpty l) x) with true;
      [apply app_nil_r|].
    symmetry. apply includes_In, filter_In.
    split; [apply includes_In; exact E | exact Ex].
  - assert (Hk : ~ In x (uniqNonEmptyValues l)).
    { rewrite uniqNonEmptyValues_In. apply includes_not_In in E. tauto. }
    rewrite (filter_neq_id _ _ Hk) in F.
    apply includes_not_In in Hk. rewrite Hk in F.
    rewrite andb_true_r in F |- *. exact F.
Qed.

(** ** The reducer *)

Section Reducer.

Variable stringifyToken : FilterToken -> jsstring.

(** C3.  For a token whose span [[s,e)] lies inside the query [Q],
    DELETE_TOKEN returns exactly [Q[0:s] ++ Q[e:]]: the span is cut out,
    nothing is added, and whitespace left next to the cut stays where it
    was. *)
Theorem delete_token_cuts_span (state : QueryBuilderState) (token : TokenResult) :
  Spec.inBounds (query state) (location token) ->
  removeQueryToken (query state) token
  = Spec.upto (query state) (offset (start (location token)))
    ++ Spec.from (query state) (offset (end_ (location token)))
  /\ reducer stringifyToken state (DeleteTokenAction token)
     = Normal {| query :=
         Spec.upto (query state) (offset (start (location token)))
         ++ Spec.from (query state) (offset (end_ (location token))) |}.
Proof.
  intros (H1 & H2 & H3).
  assert (E : removeQueryToken (query state) token
              = Spec.upto (query state) (offset (start (location token)))
                ++ Spec.from (query state) (offset (end_ (location token)))).
  { unfold removeQueryToken.
    rewrite substring_prefix, substring_suffix by lia. reflexivity. }
  split; [exact E|]. unfold reducer; simpl. rewrite E. reflexivity.
Qed.

(** C8.  An action whose type tag is none of the six recognized intents
    leaves the state as it is, and the dispatch completes normally: it
    does not throw. *)
Theorem unrecognized_action_is_inert
  (state : QueryBuilderState) (action : QueryBuilderActions) :
  ~ In (action_type action) Spec.recognized ->
  reducer stringifyToken state action = Normal state.
Proof.
  intros H. destruct action as [t|t x|t o|t x|t x|t|tag];
    try (exfalso; apply H; simpl; tauto).
  simpl in H. unfold reducer. simpl action_type.
  repeat match goal with
  | |- context [String.eqb tag ?s] =>
      destruct (String.eqb_spec tag s) as [E|_];
      [exfalso; apply H; rewrite E; simpl; tauto|]
  end.
  reflexivity.
Qed.

(** C2.  The values handed to the multi-value update lose their duplicates
    and their empty strings first; what is left is written at the value
    token's span as the empty string when nothing is left, as the bare
    value when one value is left, and as one bracketed, comma-separated
    literal when more are left.  Serializing ["a","","a","b"] gives
    "[a,b]". *)
Theorem multiple_values_list_rule
  (state : QueryBuilderState) (token : FilterToken) (values : list jsstring) :
  let kept := uniqNonEmptyValues values in
  let put := fun literal =>
    {| query := replaceQueryToken (query state) (value token) literal |} in
  NoDup kept
  /\ (forall x, In x kept <-> In x values /\ x <> [])
  /\ (kept = [] -> updateFilterMultipleValues state token values = put [])
  /\ (forall v, kept = [v] ->
        updateFilterMultipleValues state token values = put v)
  /\ (forall v w vs, kept = v :: w :: vs ->
        updateFilterMultipleValues state token values
        = put (`"["` ++ join `","` kept ++ `"]"`))
  /\ uniqNonEmptyValues [`"a"`; []; `"a"`; `"b"`] = [`"a"`; `"b"`]
  /\ updateFilterMultipleValues {| query := `"k:x"` |} Sample.k_x
       [`"a"`; []; `"a"`; `"b"`]
     = {| query := `"k:[a,b]"` |}.
Proof.
  intros kept put. subst kept put.
  split; [apply uniqNonEmptyValues_NoDup|].
  split; [intros x; apply uniqNonEmptyValues_In|].
  unfold updateFilterMultipleValues.
  repeat split.
  - intros ->. reflexivity.
  - intros v ->. reflexivity.
  - intros v w vs E. rewrite E. reflexivity.
Qed.

(** C6.  UPDATE_FILTER_OP with target operator [op]: for not-equal the
    token's operator becomes the default one and its negated flag true;
    for any other target the operator becomes [op] and negated false.  The
    token's key, value, text and span stay as they were, the stringifier is
    applied to the token so changed, and its output replaces exactly the
    token's original span.  With a stringifier that keeps its contract, the
    new query has, at that span, the text of the key and the text of the
    value unchanged, behind and around what the new operator and negation
    are written as; when the span held the token's canonical text before,
    the old and the new query differ in those operator and negation marks
    only. *)
Theorem update_filter_op_rewrites_operator
  (state : QueryBuilderState) (token : FilterToken) (op : TermOperator) :
  let token' := snd (modifyFilterOperator stringifyToken (query state) token op) in
  let before := Spec.upto (query state) (offset (start (filter_location token))) in
  let after := Spec.from (query state) (offset (end_ (filter_location token))) in
  (op = NOT_EQUAL -> operator token' = DEFAULT /\ negated token' = true)
  /\ (op <> NOT_EQUAL -> operator token' = op /\ negated token' = false)
  /\ key token' = key token
  /\ value token' = value token
  /\ filter_text token' = filter_text token
  /\ filter_location token' = filter_location token
  /\ (Spec.inBounds (query state) (filter_location token) ->
      reducer stringifyToken state (UpdateFilterOpAction token op)
      = Normal {| query := before ++ stringifyToken token' ++ after |})
  /\ (forall lead mark,
      Spec.canonical stringifyToken lead mark ->
      Spec.inBounds (query state) (filter_location token) ->
      reducer stringifyToken state (UpdateFilterOpAction token op)
      = Normal {| query :=
          before
          ++ (lead (operator token') (negated token') ++ text (key token)
              ++ mark (operator token') (negated token') ++ text (value token))
          ++ after |}
      /\ (substring (query state) (offset (start (filter_location token)))
            (offset (end_ (filter_location token)))
          = stringifyToken token ->
          query state
          = before
            ++ (lead (operator token) (negated token) ++ text (key token)
                ++ mark (operator token) (negated token) ++ text (value token))
            ++ after)).
Proof.
  intros token' before after.
  assert (R : Spec.inBounds (query state) (filter_location token) ->
              reducer stringifyToken state (UpdateFilterOpAction token op)
              = Normal {| query := before ++ stringifyToken token' ++ after |}).
  { intros (H1 & H2 & H3). unfold reducer; simpl.
    rewrite substring_prefix, substring_suffix by lia. reflexivity. }
  split; [|split; [|split; [|split; [|split; [|split; [|split]]]]]];
    try reflexivity.
  - intros ->. split; reflexivity.
  - intros H. destruct op; try (split; reflexivity). congruence.
  - exact R.
  - intros lead mark C H. split.
    + rewrite (R H), (C token'). reflexivity.
    + intros E. destruct H as (H1 & H2 & H3).
      rewrite <- (C token), <- E. symmetry.
      apply substring_between; assumption.
Qed.

(** C4.  For a token whose span [[s,e)] lies inside the query [Q] and a
    replacement [r], UPDATE_FREE_TEXT returns
    [trim (trimEnd Q[0:s] ++ " " ++ r' ++ " " ++ trimStart Q[e:])], where
    [r'] is the replacement with its own leading and trailing whitespace
    trimmed: the three parts are joined by single spaces and the whole is
    trimmed. *)
Theorem update_free_text_pads_trimmed_replacement
  (state : QueryBuilderState) (token : TokenResult) (r : jsstring) :
  Spec.inBounds (query state) (location token) ->
  reducer stringifyToken state (UpdateFreeTextAction token r)
  = Normal {| query :=
      Spec.replaceFreeText (query state) (location token) (trim r) |}.
Proof.
  intros H. unfold reducer; simpl. unfold updateFreeText.
  rewrite padded_spelled by assumption. reflexivity.
Qed.

(** C7, as amended.  DELETE_TOKEN, UPDATE_FILTER_OP, UPDATE_TOKEN_VALUE and
    the two multi-value updates return [Q[0:s]], something, [Q[e:]] for the
    span [[s,e)] of the token they replace (for the multi-value updates,
    the filter's value token): the text outside the span is kept verbatim.
    UPDATE_FREE_TEXT keeps the text before and after the span up to its
    outer whitespace: it returns the trimmed prefix, the trimmed
    replacement and the trimmed suffix with at most one space at each
    join. *)
Theorem single_token_edits_keep_frame (state : QueryBuilderState) :
  let Q := query state in
  (forall token, Spec.inBounds Q (location token) ->
     Spec.lands (reducer stringifyToken state (DeleteTokenAction token))
       (Spec.framed Q (location token)))
  /\ (forall token op, Spec.inBounds Q (filter_location token) ->
     Spec.lands (reducer stringifyToken state (UpdateFilterOpAction token op))
       (Spec.framed Q (filter_location token)))
  /\ (forall token v, Spec.inBounds Q (location token) ->
     Spec.lands (reducer stringifyToken state (UpdateTokenValueAction token v))
       (Spec.framed Q (location token)))
  /\ (forall token v, Spec.inBounds Q (location (value token)) ->
     Spec.lands (reducer stringifyToken state (MultiSelectFilterValueAction token v))
       (Spec.framed Q (location (value token))))
  /\ (forall token, Spec.inBounds Q (location (value token)) ->
     Spec.lands
       (reducer stringifyToken state (DeleteLastMultiSelectFilterValueAction token))
       (Spec.framed Q (location (value token))))
  /\ (forall token r, Spec.inBounds Q (location token) ->
     Spec.lands (reducer stringifyToken state (UpdateFreeTextAction token r))
       (fun R => exists pad1 pad2, Spec.pad pad1 /\ Spec.pad pad2 /\
          R = trim (Spec.upto Q (offset (start (location token))))
              ++ pad1 ++ trim r ++ pad2
              ++ trim (Spec.from Q (offset (end_ (location token)))))).
Proof.
  intros Q. subst Q. unfold Spec.lands, Spec.framed.
  split; [|split; [|split; [|split; [|split]]]].
  - intros token H. eexists. split.
    + unfold reducer; simpl. reflexivity.
    + destruct H as (H1 & H2 & H3). unfold removeQueryToken.
      rewrite substring_prefix, substring_suffix by lia.
      exists []. reflexivity.
  - intros token op (H1 & H2 & H3). eexists. split.
    + unfold reducer; simpl. reflexivity.
    + rewrite substring_prefix, substring_suffix by lia. eexists. reflexivity.
  - intros token v H. eexists. split.
    + unfold reducer; simpl. reflexivity.
    + rewrite replaceQueryToken_inBounds by assumption. eexists. reflexivity.
  - intros token v H. eexists. split.
    + unfold reducer; simpl. rewrite multiSelectTokenValue_toggled. reflexivity.
    + rewrite replaceQueryToken_inBounds by assumption. eexists. reflexivity.
  - intros token H. unfold reducer; simpl.
    unfold deleteLastMultiSelectTokenValue.
    destruct (isListType _);
      rewrite updateFilterMultipleValues_serialize,
        replaceQueryToken_inBounds by assumption;
      (eexists; split; [reflexivity | eexists; reflexivity]).
  - intros token r H. eexists. split.
    + unfold reducer; simpl. unfold updateFreeText. reflexivity.
    + rewrite padded_spelled by assumption. apply padded_shape.
Qed.

(** C1.  TOGGLE_FILTER_VALUE with candidate [v].  On a text-list or
    number-list value the candidate is appended when it is absent and every
    occurrence of it is removed when it is present, the other values staying
    members; a scalar whose text is [v] becomes the empty value; a scalar
    whose text differs becomes the two-element list of the current text and
    [v].  The list is written by the list rule at the value token's span.
    On [assigned:[me,team]] toggling "me" gives [assigned:team], and on the
    token re-parsed from that toggling "team" gives [assigned:]. *)
Theorem toggle_filter_value_flips_membership
  (state : QueryBuilderState) (token : FilterToken) (v : jsstring) :
  let tv := value token in
  let values := List.map itemText (items tv) in
  let put := fun literal =>
    Normal {| query := replaceQueryToken (query state) tv literal |} in
  (isListType (type tv) = true -> ~ In v values ->
     reducer stringifyToken state (MultiSelectFilterValueAction token v)
     = put (Spec.serialize (values ++ [v])))
  /\ (isListType (type tv) = true -> In v values ->
     exists kept,
       reducer stringifyToken state (MultiSelectFilterValueAction token v)
       = put (Spec.serialize kept)
       /\ ~ In v kept
       /\ forall x, x <> v -> (In x kept <-> In x values))
  /\ (isListType (type tv) = false -> text tv = v ->
     reducer stringifyToken state (MultiSelectFilterValueAction token v)
     = put [])
  /\ (isListType (type tv) = false -> text tv <> v ->
     reducer stringifyToken state (MultiSelectFilterValueAction token v)
     = put (Spec.serialize [text tv; v]))
  /\ (forall literal, Spec.inBounds (query state) (location tv) ->
     replaceQueryToken (query state) tv literal
     = Spec.upto (query state) (offset (start (location tv))) ++ literal
       ++ Spec.from (query state) (offset (end_ (location tv))))
  /\ reducer stringifyToken {| query := `"assigned:[me,team]"` |}
       (MultiSelectFilterValueAction Sample.assigned_me_team `"me"`)
     = Normal {| query := `"assigned:team"` |}
  /\ Spec.reparsed (Spec.toggled (value Sample.assigned_me_team) `"me"`)
       (value Sample.assigned_team)
  /\ reducer stringifyToken {| query := `"assigned:team"` |}
       (MultiSelectFilterValueAction Sample.assigned_team `"team"`)
     = Normal {| query := `"assigned:"` |}.
Proof.
  intros tv values put. subst tv values put.
  assert (R : reducer stringifyToken state (MultiSelectFilterValueAction token v)
              = Normal (multiSelectTokenValue state token v)) by reflexivity.
  rewrite R, multiSelectTokenValue_toggled. unfold Spec.toggled.
  split; [|split; [|split; [|split; [|split; [|split; [|split]]]]]].
  - intros -> H. apply includes_not_In in H. rewrite H. reflexivity.
  - intros -> H. exists (filter (fun x => negb (eqb x v))
                          (List.map itemText (items (value token)))).
    split; [|split].
    + apply includes_In in H. rewrite H. reflexivity.
    + apply filter_neq_not_In.
    + intros x Hx. apply filter_neq_In. exact Hx.
  - intros -> E. apply eqb_eq in E. rewrite E. reflexivity.
  - intros -> E. apply eqb_neq in E. rewrite E. reflexivity.
  - intros literal H. apply replaceQueryToken_inBounds. exact H.
  - reflexivity.
  - unfold Spec.reparsed. simpl. split; reflexivity.
  - reflexivity.
Qed.

(** C9, as amended.  Toggling [v] and then toggling [v] again on the token
    re-parsed from the first result gives back the same set of values: the
    values that are kept (no duplicates, no empty strings) after the second
    toggle are the ones kept of the original content, with [v] moved to the
    last place when it was a member.  When [v] was not a member the kept
    list is restored exactly, order included. *)
Theorem toggle_twice_keeps_value_set
  (state : QueryBuilderState) (token token' : FilterToken) (v : jsstring) :
  Spec.reparsed (Spec.toggled (value token) v) (value token') ->
  let original := uniqNonEmptyValues (Spec.content (value token)) in
  let final := uniqNonEmptyValues (Spec.toggled (value token') v) in
  let state1 :=
    {| query := replaceQueryToken (query state) (value token)
                  (Spec.serialize (Spec.toggled (value token) v)) |} in
  reducer stringifyToken state (MultiSelectFilterValueAction token v)
  = Normal state1
  /\ reducer stringifyToken state1 (MultiSelectFilterValueAction token' v)
     = Normal {| query := replaceQueryToken (query state1) (value token')
                            (Spec.serialize final) |}
  /\ final = filter (fun x => negb (eqb x v)) original
             ++ (if includes original v then [v] else [])
  /\ (forall x, In x final <-> In x original)
  /\ (~ In v original -> final = original).
Proof.
  intros H original final state1.
  assert (F : final = filter (fun x => negb (eqb x v)) original
                      ++ (if includes original v then [v] else [])).
  { subst final original.
    rewrite toggled_flip, uniqNonEmptyValues_flip.
    rewrite (reparsed_content _ _ H).
    rewrite toggled_flip, uniqNonEmptyValues_flip.
    apply flipKept_twice, uniqNonEmptyValues_no_empty. }
  split; [|split; [|split; [|split]]].
  - unfold reducer; simpl. rewrite multiSelectTokenValue_toggled. reflexivity.
  - assert (S : Spec.serialize (Spec.toggled (value token') v)
                = Spec.serialize final).
    { apply serialize_kept. subst final.
      symmetry. apply uniqNonEmptyValues_idem. }
    unfold reducer; simpl. rewrite multiSelectTokenValue_toggled, S.
    reflexivity.
  - exact F.
  - intros x. rewrite F, in_app_iff.
    destruct (eqb x v) eqn:E.
    + apply eqb_eq in E. subst x.
      pose proof (filter_neq_not_In v original) as Hn.
      destruct (includes original v) eqn:Ei.
      * apply includes_In in Ei. simpl. tauto.
      * apply includes_not_In in Ei. simpl. tauto.
    + apply eqb_neq in E. rewrite (filter_neq_In v x original E).
      destruct (includes original v); simpl; [|tauto].
      split; [intros [?|[?|[]]]; congruence || assumption | tauto].
  - intros Hn. rewrite F, (filter_neq_id _ _ Hn).
    apply includes_not_In in Hn. rewrite Hn. apply app_nil_r.
Qed.

(** C10.  A toggle on a list value keeps the order of the values that
    survive.  The values kept of the items (first occurrences, in the order
    met, empty strings left out) are written back in that order: with an
    absent candidate behind them all, or with a present candidate taken
    out and the others left where they were.  A list item whose nested
    value is missing counts as the empty string, so it does not appear in
    the list written back.  On [assigned:[me,team]] toggling "x" gives
    [assigned:[me,team,x]]; on [assigned:[me,team,x]] toggling "team" gives
    [assigned:[me,x]]; on [assigned:[me,,team]], whose second item has no
    value, toggling "x" gives [assigned:[me,team,x]]. *)
Theorem multi_value_edits_keep_order
  (state : QueryBuilderState) (token : FilterToken) (v : jsstring) :
  let values := List.map itemText (items (value token)) in
  let kept := uniqNonEmptyValues values in
  let without := fun (x : jsstring) (l : list jsstring) =>
    filter (fun y => negb (eqb y x)) l in
  let put := fun written =>
    Normal {| query := replaceQueryToken (query state) (value token) written |} in
  (isListType (type (value token)) = true -> ~ In v values ->
     reducer stringifyToken state (MultiSelectFilterValueAction token v)
     = Normal (updateFilterMultipleValues state token (values ++ [v]))
     /\ uniqNonEmptyValues (values ++ [v])
        = kept ++ (if Spec.nonEmpty v then [v] else [])
     /\ reducer stringifyToken state (MultiSelectFilterValueAction token v)
        = put (Spec.literal (kept ++ (if Spec.nonEmpty v then [v] else []))))
  /\ (isListType (type (value token)) = true -> In v values ->
     reducer stringifyToken state (MultiSelectFilterValueAction token v)
     = Normal (updateFilterMultipleValues state token (without v values))
     /\ uniqNonEmptyValues (without v values) = without v kept
     /\ reducer stringifyToken state (MultiSelectFilterValueAction token v)
        = put (Spec.literal (without v kept)))
  /\ (forall x xs,
     uniqNonEmptyValues (x :: xs)
     = if Spec.nonEmpty x
       then x :: without x (uniqNonEmptyValues xs)
       else uniqNonEmptyValues xs)
  /\ uniqNonEmptyValues [`"b"`; `"a"`; `"b"`; `"c"`; `"a"`]
     = [`"b"`; `"a"`; `"c"`]
  /\ (forall item, item_value item = None -> itemText item = [])
  /\ (forall xs, ~ In [] (uniqNonEmptyValues xs))
  /\ reducer stringifyToken state
       (MultiSelectFilterValueAction (Spec.dropMissing token) v)
     = reducer stringifyToken state (MultiSelectFilterValueAction token v)
  /\ reducer stringifyToken {| query := `"assigned:[me,team]"` |}
       (MultiSelectFilterValueAction Sample.assigned_me_team `"x"`)
     = Normal {| query := `"assigned:[me,team,x]"` |}
  /\ reducer stringifyToken {| query := `"assigned:[me,team,x]"` |}
       (MultiSelectFilterValueAction Sample.assigned_me_team_x `"team"`)
     = Normal {| query := `"assigned:[me,x]"` |}
  /\ reducer stringifyToken {| query := `"assigned:[me,,team]"` |}
       (MultiSelectFilterValueAction Sample.assigned_me_gap_team `"x"`)
     = Normal {| query := `"assigned:[me,team,x]"` |}.
Proof.
  intros values kept without put. subst values kept without put.
  assert (R : reducer stringifyToken state (MultiSelectFilterValueAction token v)
              = Normal (multiSelectTokenValue state token v)) by reflexivity.
  split; [|split; [|split; [|split; [|split; [|split; [|split;
    [|split; [|split]]]]]]]].
  - intros L H.
    assert (A : uniqNonEmptyValues
                  (List.map itemText (items (value token)) ++ [v])
                = uniqNonEmptyValues (List.map itemText (items (value token)))
                  ++ (if Spec.nonEmpty v then [v] else [])).
    { rewrite uniqNonEmptyValues_append.
      apply includes_not_In in H. rewrite H, andb_true_r. reflexivity. }
    assert (E : multiSelectTokenValue state token v
                = updateFilterMultipleValues state token
                    (List.map itemText (items (value token)) ++ [v])).
    { unfold multiSelectTokenValue. rewrite L.
      apply includes_not_In in H. rewrite H. reflexivity. }
    split; [|split].
    + rewrite R, E. reflexivity.
    + exact A.
    + rewrite R, E, updateFilterMultipleValues_serialize, serialize_literal, A.
      reflexivity.
  - intros L H.
    assert (A : uniqNonEmptyValues
                  (filter (fun y => negb (eqb y v))
                     (List.map itemText (items (value token))))
                = filter (fun y => negb (eqb y v))
                    (uniqNonEmptyValues
                       (List.map itemText (items (value token))))).
    { rewrite !uniqNonEmptyValues_dedupe, filter_filter_comm.
      apply dedupe_filter. }
    assert (E : multiSelectTokenValue state token v
                = updateFilterMultipleValues state token
                    (filter (fun y => negb (eqb y v))
                       (List.map itemText (items (value token))))).
    { unfold multiSelectTokenValue. rewrite L.
      apply includes_In in H. rewrite H. reflexivity. }
    split; [|split].
    + rewrite R, E. reflexivity.
    + exact A.
    + rewrite R, E, updateFilterMultipleValues_serialize, serialize_literal, A.
      reflexivity.
  - intros x xs. rewrite !uniqNonEmptyValues_dedupe. simpl.
    destruct (Spec.nonEmpty x); reflexivity.
  - reflexivity.
  - intros item E. unfold itemText. rewrite E. reflexivity.
  - apply uniqNonEmptyValues_no_empty.
  - assert (S : Spec.serialize (Spec.toggled (value (Spec.dropMissing token)) v)
                = Spec.serialize (Spec.toggled (value token) v)).
    { apply serialize_kept.
      rewrite !toggled_flip, !uniqNonEmptyValues_flip, content_dropMissing.
      reflexivity. }
    unfold reducer; simpl. rewrite !multiSelectTokenValue_toggled, S.
    reflexivity.
  - reflexivity.
  - reflexivity.
  - reflexivity.
Qed.

End Reducer.

(** ** The theorems at sample inputs *)

Lemma delete_token_cuts_span_sample :
  Spec.inBounds `"is:unresolved  assigned:me"`
    (Sample.span 13 15)
  /\ reducer Sample.stringifySample {| query := `"is:unresolved  assigned:me"` |}
       (DeleteTokenAction (Sample.word SPACES "  " 13 15))
     = Normal {| query := `"is:unresolvedassigned:me"` |}.
Proof.
  assert (H : Spec.inBounds `"is:unresolved  assigned:me"` (Sample.span 13 15))
    by in_bounds.
  split; [exact H|].
  destruct (delete_token_cuts_span Sample.stringifySample
              {| query := `"is:unresolved  assigned:me"` |}
              (Sample.word SPACES "  " 13 15) H) as [_ E].
  rewrite E. reflexivity.
Defined.

Lemma unrecognized_action_is_inert_sample :
  ~ In (action_type (UntypedAction "RESET")) Spec.recognized
  /\ reducer Sample.stringifySample {| query := `"is:unresolved"` |}
       (UntypedAction "RESET")
     = Normal {| query := `"is:unresolved"` |}.
Proof.
  assert (H : ~ In (action_type (UntypedAction "RESET")) Spec.recognized).
  { simpl. intros H. repeat destruct H as [H|H]; try discriminate H. exact H. }
  split; [exact H|].
  apply (unrecognized_action_is_inert Sample.stringifySample _ _ H).
Defined.

Lemma multiple_values_list_rule_sample :
  uniqNonEmptyValues [`"a"`; []; `"a"`] = [`"a"`]
  /\ updateFilterMultipleValues {| query := `"k:x"` |} Sample.k_x
       [`"a"`; []; `"a"`]
     = {| query := `"k:a"` |}.
Proof.
  split; [reflexivity|].
  destruct (multiple_values_list_rule {| query := `"k:x"` |} Sample.k_x
              [`"a"`; []; `"a"`]) as (_ & _ & _ & H & _).
  rewrite (H `"a"` eq_refl). reflexivity.
Defined.

Lemma update_filter_op_rewrites_operator_sample :
  Spec.canonical Sample.stringifyFilter
    (fun _ n => if n then `"!"` else [])
    (fun o _ => `":"` ++ Sample.glyph o)
  /\ Spec.inBounds `"assigned:me"` (filter_location Sample.assigned_me)
  /\ substring `"assigned:me"` 0 11 = Sample.stringifyFilter Sample.assigned_me
  /\ reducer Sample.stringifyFilter {| query := `"assigned:me"` |}
       (UpdateFilterOpAction Sample.assigned_me NOT_EQUAL)
     = Normal {| query := `"!assigned:me"` |}
  /\ reducer Sample.stringifyFilter {| query := `"assigned:me"` |}
       (UpdateFilterOpAction Sample.assigned_me GREATER_THAN)
     = Normal {| query := `"assigned:>me"` |}.
Proof.
  assert (C : Spec.canonical Sample.stringifyFilter
                (fun _ n => if n then `"!"` else [])
                (fun o _ => `":"` ++ Sample.glyph o))
    by (intros f; reflexivity).
  assert (H : Spec.inBounds `"assigned:me"` (filter_location Sample.assigned_me))
    by in_bounds.
  split; [exact C|]. split; [exact H|]. split; [reflexivity|]. split.
  - destruct (update_filter_op_rewrites_operator Sample.stringifyFilter
                {| query := `"assigned:me"` |} Sample.assigned_me NOT_EQUAL)
      as (_ & _ & _ & _ & _ & _ & _ & K).
    destruct (K _ _ C H) as [E _]. rewrite E. reflexivity.
  - destruct (update_filter_op_rewrites_operator Sample.stringifyFilter
                {| query := `"assigned:me"` |} Sample.assigned_me GREATER_THAN)
      as (_ & _ & _ & _ & _ & _ & _ & K).
    destruct (K _ _ C H) as [E _]. rewrite E. reflexivity.
Defined.

Lemma update_free_text_pads_trimmed_replacement_sample :
  Spec.inBounds `"a b"` (Sample.span 1 2)
  /\ reducer Sample.stringifySample {| query := `"a b"` |}
       (UpdateFreeTextAction (Sample.word SPACES " " 1 2) `" x"`)
     = Normal {| query := `"a x b"` |}.
Proof.
  assert (H : Spec.inBounds `"a b"` (Sample.span 1 2)) by in_bounds.
  split; [exact H|].
  rewrite (update_free_text_pads_trimmed_replacement Sample.stringifySample
             {| query := `"a b"` |} (Sample.word SPACES " " 1 2) `" x"` H).
  reflexivity.
Defined.

(** The trimming of the replacement matters: with the replacement itself
    as the middle part, replacing the space of "a b" by " x" would give
    "a  x b"; the reducer gives "a x b". *)
Lemma update_free_text_trims_replacement :
  Spec.inBounds `"a b"` (Sample.span 1 2)
  /\ Spec.replaceFreeText `"a b"` (Sample.span 1 2) `" x"` = `"a  x b"`
  /\ reducer Sample.stringifySample {| query := `"a b"` |}
       (UpdateFreeTextAction (Sample.word SPACES " " 1 2) `" x"`)
     <> Normal {| query :=
          Spec.replaceFreeText `"a b"` (Sample.span 1 2) `" x"` |}.
Proof.
  split; [in_bounds|]. split; [reflexivity|].
  vm_compute. discriminate.
Qed.

(** C5: what the reducer does when the replacement is blank.  The two
    single spaces it puts at the joins end up next to each other. *)
Theorem update_free_text_blank_replacement :
  reducer Sample.stringifySample {| query := `"a   b"` |}
    (UpdateFreeTextAction (Sample.word SPACES "   " 1 4) `"  "`)
  = Normal {| query := `"a  b"` |}
  /\ reducer Sample.stringifySample {| query := `"is:unresolved  assigned:me"` |}
       (UpdateFreeTextAction (Sample.word SPACES "  " 13 15) [])
     = Normal {| query := `"is:unresolved  assigned:me"` |}
  /\ forall state token r,
       exists R,
         reducer Sample.stringifySample state (UpdateFreeTextAction token r)
         = Normal {| query := R |}
         /\ trimStart R = R /\ trimEnd R = R.
Proof.
  split; [reflexivity|]. split; [reflexivity|].
  intros state token r. eexists. split; [reflexivity|].
  unfold replaceTokenWithPadding. split.
  - apply trimStart_trim.
  - apply trimEnd_trim.
Qed.

Lemma single_token_edits_keep_frame_sample :
  Spec.inBounds `"is:unresolved  assigned:me"` (Sample.span 13 15)
  /\ Spec.lands
       (reducer Sample.stringifySample
          {| query := `"is:unresolved  assigned:me"` |}
          (DeleteTokenAction (Sample.word SPACES "  " 13 15)))
       (Spec.framed `"is:unresolved  assigned:me"` (Sample.span 13 15)).
Proof.
  assert (H : Spec.inBounds `"is:unresolved  assigned:me"` (Sample.span 13 15))
    by in_bounds.
  split; [exact H|].
  exact (proj1 (single_token_edits_keep_frame Sample.stringifySample
                  {| query := `"is:unresolved  assigned:me"` |})
           (Sample.word SPACES "  " 13 15) H).
Defined.

(** C7 as it is worded fails on the padded path: replacing the free text
    "b" of " a b" by "c" gives "a c", which no longer starts with the text
    " a " that precedes the span. *)
Lemma padded_replace_trims_outside_span :
  Spec.inBounds `" a b"` (Sample.span 3 4)
  /\ reducer Sample.stringifySample {| query := `" a b"` |}
       (UpdateFreeTextAction (Sample.word FREE_TEXT "b" 3 4) `"c"`)
     = Normal {| query := `"a c"` |}
  /\ ~ Spec.lands
         (reducer Sample.stringifySample {| query := `" a b"` |}
            (UpdateFreeTextAction (Sample.word FREE_TEXT "b" 3 4) `"c"`))
         (Spec.framed `" a b"` (Sample.span 3 4)).
Proof.
  split; [in_bounds|]. split; [reflexivity|].
  intros (R & E & mid & F).
  vm_compute in E. injection E as <-.
  vm_compute in F. discriminate F.
Qed.

Lemma toggle_filter_value_flips_membership_sample :
  isListType (type (value Sample.assigned_team)) = false
  /\ text (value Sample.assigned_team) = `"team"`
  /\ reducer Sample.stringifySample {| query := `"assigned:team"` |}
       (MultiSelectFilterValueAction Sample.assigned_team `"team"`)
     = Normal {| query := `"assigned:"` |}.
Proof.
  split; [reflexivity|]. split; [reflexivity|].
  destruct (toggle_filter_value_flips_membership Sample.stringifySample
              {| query := `"assigned:team"` |} Sample.assigned_team `"team"`)
    as (_ & _ & H & _).
  rewrite (H eq_refl eq_refl). reflexivity.
Defined.

Lemma toggle_twice_keeps_value_set_sample :
  Spec.reparsed (Spec.toggled (value Sample.assigned_me_team) `"me"`)
    (value Sample.assigned_team)
  /\ uniqNonEmptyValues (Spec.toggled (value Sample.assigned_team) `"me"`)
     = [`"team"`; `"me"`].
Proof.
  assert (H : Spec.reparsed (Spec.toggled (value Sample.assigned_me_team) `"me"`)
                (value Sample.assigned_team)).
  { unfold Spec.reparsed. simpl. split; reflexivity. }
  split; [exact H|].
  destruct (toggle_twice_keeps_value_set Sample.stringifySample
              {| query := `"assigned:[me,team]"` |}
              Sample.assigned_me_team Sample.assigned_team `"me"` H)
    as (_ & _ & F & _).
  rewrite F. reflexivity.
Defined.

(** C9 as it is worded fails: on [assigned:[me,team]], toggling "me" gives
    [assigned:team], and toggling "me" again on the token re-parsed from
    that gives [assigned:[team,me]]: the same values in another order. *)
Lemma toggle_twice_reorders :
  reducer Sample.stringifySample {| query := `"assigned:[me,team]"` |}
    (MultiSelectFilterValueAction Sample.assigned_me_team `"me"`)
  = Normal {| query := `"assigned:team"` |}
  /\ Spec.reparsed (Spec.toggled (value Sample.assigned_me_team) `"me"`)
       (value Sample.assigned_team)
  /\ reducer Sample.stringifySample {| query := `"assigned:team"` |}
       (MultiSelectFilterValueAction Sample.assigned_team `"me"`)
     = Normal {| query := `"assigned:[team,me]"` |}
  /\ uniqNonEmptyValues (Spec.toggled (value Sample.assigned_team) `"me"`)
     <> uniqNonEmptyValues (Spec.content (value Sample.assigned_me_team))
  /\ Spec.content (value Sample.assigned_team_me)
     <> Spec.content (value Sample.assigned_me_team).
Proof.
  split; [reflexivity|]. split; [split; reflexivity|]. split; [reflexivity|].
  split; vm_compute; discriminate.
Qed.

Lemma multi_value_edits_keep_order_sample :
  isListType (type (value Sample.assigned_me_team_x)) = true
  /\ In `"team"` (List.map itemText (items (value Sample.assigned_me_team_x)))
  /\ reducer Sample.stringifySample {| query := `"assigned:[me,team,x]"` |}
       (MultiSelectFilterValueAction Sample.assigned_me_team_x `"team"`)
     = Normal {| query := `"assigned:[me,x]"` |}
  /\ ~ In `"x"` (List.map itemText (items (value Sample.assigned_me_team)))
  /\ reducer Sample.stringifySample {| query := `"assigned:[me,team]"` |}
       (MultiSelectFilterValueAction Sample.assigned_me_team `"x"`)
     = Normal {| query := `"assigned:[me,team,x]"` |}.
Proof.
  assert (H : In `"team"`
                (List.map itemText (items (value Sample.assigned_me_team_x))))
    by (right; left; reflexivity).
  assert (N : ~ In `"x"`
                (List.map itemText (items (value Sample.assigned_me_team)))).
  { simpl. intros [E|[E|[]]]; discriminate E. }
  split; [reflexivity|]. split; [exact H|]. split; [|split; [exact N|]].
  - destruct (multi_value_edits_keep_order Sample.stringifySample
                {| query := `"assigned:[me,team,x]"` |}
                Sample.assigned_me_team_x `"team"`)
      as (_ & K & _).
    destruct (K eq_refl H) as (_ & _ & E). rewrite E. reflexivity.
  - destruct (multi_value_edits_keep_order Sample.stringifySample
                {| query := `"assigned:[me,team]"` |}
                Sample.assigned_me_team `"x"`)
      as (K & _).
    destruct (K eq_refl N) as (_ & _ & E). rewrite E. reflexivity.
Defined.

(** ** Offsets of any size *)

Lemma clamp_range (len x : Z) : 0 <= len -> 0 <= clamp len x <= len.
Proof. unfold clamp. lia. Qed.

Lemma substring_prefix_clamp (Q : jsstring) (s : Z) :
  substring Q 0 s = Spec.upto Q (clamp (JS.length Q) s).
Proof.
  pose proof (length_nonneg Q) as HQ.
  pose proof (clamp_range (JS.length Q) s HQ) as Hc.
  unfold substring, Spec.upto.
  replace (clamp (JS.length Q) 0) with 0 by (unfold clamp; lia).
  replace (Z.min 0 (clamp (JS.length Q) s)) with 0 by lia.
  replace (Z.max 0 (clamp (JS.length Q) s) - 0)
    with (clamp (JS.length Q) s) by lia.
  reflexivity.
Qed.

Lemma substring_suffix_clamp (Q : jsstring) (e : Z) :
  substring_from Q e = Spec.from Q (clamp (JS.length Q) e).
Proof.
  pose proof (length_nonneg Q) as HQ.
  pose proof (clamp_range (JS.length Q) e HQ) as Hc.
  unfold substring_from, substring, Spec.from.
  replace (clamp (JS.length Q) (JS.length Q)) with (JS.length Q)
    by (unfold clamp; lia).
  replace (Z.min (clamp (JS.length Q) e) (JS.length Q))
    with (clamp (JS.length Q) e) by lia.
  replace (Z.max (clamp (JS.length Q) e) (JS.length Q))
    with (JS.length Q) by lia.
  apply firstn_all2. rewrite length_skipn. unfold JS.length in *. lia.
Qed.

Lemma length_app (a b : jsstring) :
  JS.length (a ++ b) = JS.length a + JS.length b.
Proof. unfold JS.length. rewrite List.length_app. lia. Qed.

Lemma length_upto (Q : jsstring) (s : Z) :
  0 <= s <= JS.length Q -> JS.length (Spec.upto Q s) = s.
Proof.
  intros H. unfold Spec.upto, JS.length in *. rewrite length_firstn. lia.
Qed.

Lemma length_from (Q : jsstring) (e : Z) :
  0 <= e <= JS.length Q -> JS.length (Spec.from Q e) = JS.length Q - e.
Proof.
  intros H. unfold Spec.from, JS.length in *. rewrite length_skipn. lia.
Qed.

Lemma upto_all (Q : jsstring) : Spec.upto Q (JS.length Q) = Q.
Proof.
  unfold Spec.upto, JS.length. rewrite Nat2Z.id. apply firstn_all.
Qed.

Lemma from_all (Q : jsstring) : Spec.from Q (JS.length Q) = [].
Proof.
  unfold Spec.from, JS.length. rewrite Nat2Z.id. apply skipn_all.
Qed.

Lemma upto_app (P X : jsstring) : Spec.upto (P ++ X) (JS.length P) = P.
Proof.
  unfold Spec.upto, JS.length. rewrite Nat2Z.id.
  rewrite firstn_app, Nat.sub_diag, firstn_all. simpl. apply app_nil_r.
Qed.

Lemma from_app (P X : jsstring) : Spec.from (P ++ X) (JS.length P) = X.
Proof.
  unfold Spec.from, JS.length. rewrite Nat2Z.id.
  rewrite skipn_app, Nat.sub_diag, skipn_all. reflexivity.
Qed.

Lemma removeQueryToken_replace (Q : jsstring) (token : TokenResult) :
  removeQueryToken Q token = replaceQueryToken Q token [].
Proof. reflexivity. Qed.

Lemma replaceQueryToken_clamp (Q : jsstring) (token : TokenResult) (v : jsstring) :
  replaceQueryToken Q token v
  = Spec.upto Q (clamp (JS.length Q) (offset (start (location token))))
    ++ v
    ++ Spec.from Q (clamp (JS.length Q) (offset (end_ (location token)))).
Proof.
  unfold replaceQueryToken.
  rewrite substring_prefix_clamp, substring_suffix_clamp. reflexivity.
Qed.

Lemma map_removelast {A B : Type} (f : A -> B) (l : list A) :
  List.map f (removelast l) = removelast (List.map f l).
Proof.
  induction l as [|x [|y l] IH]; simpl; try reflexivity.
  simpl in IH. rewrite IH. reflexivity.
Qed.

Lemma substring_app_mid (P v S : jsstring) :
  substring (P ++ v ++ S) (JS.length P) (JS.length P + JS.length v) = v.
Proof.
  pose proof (length_nonneg P) as HP. pose proof (length_nonneg v) as Hv.
  pose proof (length_nonneg S) as HS.
  unfold substring, clamp. rewrite !length_app.
  replace (Z.min (Z.max (JS.length P) 0)
             (JS.length P + (JS.length v + JS.length S)))
    with (JS.length P) by lia.
  replace (Z.min (Z.max (JS.length P + JS.length v) 0)
             (JS.length P + (JS.length v + JS.length S)))
    with (JS.length P + JS.length v) by lia.
  replace (Z.min (JS.length P) (JS.length P + JS.length v))
    with (JS.length P) by lia.
  replace (Z.max (JS.length P) (JS.length P + JS.length v)
           - JS.length P) with (JS.length v) by lia.
  unfold JS.length. rewrite !Nat2Z.id.
  rewrite skipn_app, Nat.sub_diag, skipn_all. simpl.
  rewrite firstn_app, Nat.sub_diag, firstn_all. simpl. apply app_nil_r.
Qed.

(** ** Further properties of the edits *)

Section Edits.

Variable stringifyToken : FilterToken -> jsstring.

(** X1.  Offsets of any size are clamped into the query, never rejected:
    a replacement keeps the text before the clamped start and after the
    clamped end.  A token that lies wholly past the end of the query
    leaves a deletion without effect and makes a replacement an append;
    one that lies wholly before its beginning makes it a prepend. *)
Theorem replace_query_token_clamps_offsets
  (Q : jsstring) (token : TokenResult) (v : jsstring) :
  let len := JS.length Q in
  let s := clamp len (offset (start (location token))) in
  let e := clamp len (offset (end_ (location token))) in
  replaceQueryToken Q token v = Spec.upto Q s ++ v ++ Spec.from Q e
  /\ removeQueryToken Q token = Spec.upto Q s ++ Spec.from Q e
  /\ JS.length (replaceQueryToken Q token v) = s + JS.length v + (len - e)
  /\ (len <= offset (start (location token)) ->
      len <= offset (end_ (location token)) ->
      removeQueryToken Q token = Q /\ replaceQueryToken Q token v = Q ++ v)
  /\ (offset (start (location token)) <= 0 ->
      offset (end_ (location token)) <= 0 ->
      removeQueryToken Q token = Q /\ replaceQueryToken Q token v = v ++ Q).
Proof.
  intros len s e. subst len s e.
  pose proof (length_nonneg Q) as HQ.
  pose proof (clamp_range (JS.length Q) (offset (start (location token))) HQ) as Hs.
  pose proof (clamp_range (JS.length Q) (offset (end_ (location token))) HQ) as He.
  rewrite removeQueryToken_replace, !replaceQueryToken_clamp.
  split; [reflexivity|]. split; [reflexivity|]. split; [|split].
  - rewrite !length_app, length_upto, length_from by assumption. lia.
  - intros H1 H2.
    replace (clamp (JS.length Q) (offset (start (location token))))
      with (JS.length Q) by (unfold clamp; lia).
    replace (clamp (JS.length Q) (offset (end_ (location token))))
      with (JS.length Q) by (unfold clamp; lia).
    rewrite upto_all, from_all, !app_nil_r. auto.
  - intros H1 H2.
    replace (clamp (JS.length Q) (offset (start (location token))))
      with 0 by (unfold clamp; lia).
    replace (clamp (JS.length Q) (offset (end_ (location token))))
      with 0 by (unfold clamp; lia).
    auto.
Qed.

(** X2.  The ways of clearing agree.  DELETE_TOKEN gives what
    UPDATE_TOKEN_VALUE gives with the empty string.  On a filter with a
    scalar value, DELETE_LAST_MULTI_SELECT_FILTER_VALUE, and
    TOGGLE_FILTER_VALUE with the value's own text, give what DELETE_TOKEN
    gives on the value token; so does the delete-last on a list of at most
    one item. *)
Theorem clearing_paths_agree
  (state : QueryBuilderState) (token : TokenResult) (f : FilterToken)
  (v : jsstring) :
  reducer stringifyToken state (DeleteTokenAction token)
  = reducer stringifyToken state (UpdateTokenValueAction token [])
  /\ (isListType (type (value f)) = false ->
      reducer stringifyToken state (DeleteLastMultiSelectFilterValueAction f)
      = reducer stringifyToken state (DeleteTokenAction (value f)))
  /\ (isListType (type (value f)) = false -> text (value f) = v ->
      reducer stringifyToken state (MultiSelectFilterValueAction f v)
      = reducer stringifyToken state (DeleteTokenAction (value f)))
  /\ (isListType (type (value f)) = true ->
      (List.length (items (value f)) <= 1)%nat ->
      reducer stringifyToken state (DeleteLastMultiSelectFilterValueAction f)
      = reducer stringifyToken state (DeleteTokenAction (value f))).
Proof.
  split; [reflexivity|]. split; [|split].
  - intros L. unfold reducer; simpl.
    unfold deleteLastMultiSelectTokenValue. rewrite L. reflexivity.
  - intros L E. unfold reducer; simpl.
    unfold multiSelectTokenValue. rewrite L.
    apply eqb_eq in E. rewrite E. reflexivity.
  - intros L H. unfold reducer; simpl.
    unfold deleteLastMultiSelectTokenValue. rewrite L.
    destruct (items (value f)) as [|i [|j l]]; simpl in H; try lia;
      reflexivity.
Qed.

(** X3.  UPDATE_TOKEN_VALUE with the text that the token's span holds in
    the query gives the state back unchanged. *)
Theorem update_token_value_with_current_text
  (state : QueryBuilderState) (token : TokenResult) :
  Spec.inBounds (query state) (location token) ->
  reducer stringifyToken state
    (UpdateTokenValueAction token
       (substring (query state) (offset (start (location token)))
          (offset (end_ (location token)))))
  = Normal state.
Proof.
  intros H. pose proof H as (H1 & H2 & H3).
  unfold reducer; simpl.
  rewrite replaceQueryToken_inBounds by assumption.
  rewrite substring_between by assumption.
  destruct state; reflexivity.
Qed.

(** X4.  A second edit overwrites the first.  After a replacement by [v],
    the span from the old start over the length of [v] lies inside the new
    query and holds exactly [v]; replacing a token with that span by [w]
    gives what replacing the original token by [w] gives, and deleting it
    gives what deleting the original token gives. *)
Theorem update_token_value_overwrites
  (state : QueryBuilderState) (token token' : TokenResult) (v w : jsstring) :
  Spec.inBounds (query state) (location token) ->
  offset (start (location token')) = offset (start (location token)) ->
  offset (end_ (location token'))
  = offset (start (location token)) + JS.length v ->
  let state1 := {| query := replaceQueryToken (query state) token v |} in
  reducer stringifyToken state (UpdateTokenValueAction token v) = Normal state1
  /\ Spec.inBounds (query state1) (location token')
  /\ substring (query state1) (offset (start (location token')))
       (offset (end_ (location token'))) = v
  /\ reducer stringifyToken state1 (UpdateTokenValueAction token' w)
     = reducer stringifyToken state (UpdateTokenValueAction token w)
  /\ reducer stringifyToken state1 (DeleteTokenAction token')
     = reducer stringifyToken state (DeleteTokenAction token).
Proof.
  intros H Es Ee state1. pose proof H as (H1 & H2 & H3).
  pose proof (length_nonneg v) as Hv.
  set (Q := query state) in *.
  set (s := offset (start (location token))) in *.
  set (e := offset (end_ (location token))) in *.
  assert (Ls : JS.length (Spec.upto Q s) = s) by (apply length_upto; lia).
  assert (Q1 : query state1 = Spec.upto Q s ++ v ++ Spec.from Q e).
  { apply replaceQueryToken_inBounds. exact H. }
  assert (B : Spec.inBounds (query state1) (location token')).
  { unfold Spec.inBounds. rewrite Es, Ee, Q1.
    rewrite !length_app, Ls, length_from by lia. lia. }
  assert (R : forall x, replaceQueryToken (query state1) token' x
                        = replaceQueryToken Q token x).
  { intros x. rewrite (replaceQueryToken_inBounds _ _ _ B).
    rewrite (replaceQueryToken_inBounds _ _ _ H).
    rewrite Es, Ee, Q1. fold s e.
    rewrite <- Ls at 2. rewrite upto_app.
    replace (s + JS.length v) with (JS.length (Spec.upto Q s ++ v))
      by (rewrite length_app; lia).
    rewrite (app_assoc (Spec.upto Q s) v (Spec.from Q e)), from_app.
    reflexivity. }
  split; [reflexivity|]. split; [exact B|]. split; [|split].
  - rewrite Es, Ee, Q1. clear - Ls.
    remember (Spec.upto Q s) as P. rewrite <- Ls. apply substring_app_mid.
  - exact (f_equal (fun q => Normal {| query := q |}) (R w)).
  - exact (f_equal (fun q => Normal {| query := q |}) (R [])).
Qed.

End Edits.

(** ** The padded replacement, case by case *)

Lemma padded_cases (P r S : jsstring) :
  trim (trimEnd P ++ `" "` ++ trim r ++ `" "` ++ trimStart S)
  = if blank_dec P then
      if blank_dec r then trim S
      else if blank_dec S then trim r else trim r ++ `" "` ++ trim S
    else
      if blank_dec r then
        if blank_dec S then trim P else trim P ++ `"  "` ++ trim S
      else
        if blank_dec S then trim P ++ `" "` ++ trim r
        else trim P ++ `" "` ++ trim r ++ `" "` ++ trim S.
Proof.
  pose proof blank_space as Hsp.
  unfold trim at 1.
  destruct (blank_dec P) as [HP|HP], (blank_dec r) as [Hr|Hr],
    (blank_dec S) as [HS|HS].
  all: try (pose proof (proj2 (trimEnd_blank P) HP) as EP; rewrite EP).
  all: try (pose proof (proj2 (trim_blank r) Hr) as Er; rewrite Er).
  all: try (pose proof HS as ES'; unfold blank in ES'; rewrite ES').
  all: simpl app.
  - apply trim_blank in HS. rewrite HS. reflexivity.
  - change (32%N :: 32%N :: trimStart S) with (`"  "` ++ trimStart S).
    rewrite trimStart_app_blank by reflexivity.
    rewrite trimStart_idem. reflexivity.
  - change (32%N :: trim r ++ [32%N]) with (`" "` ++ trim r ++ `" "`).
    rewrite trimStart_app_blank by assumption.
    rewrite trimStart_app_solid by (rewrite blank_trim; assumption).
    rewrite trimStart_trim, trimEnd_app_blank by assumption.
    apply trimEnd_trim.
  - change (32%N :: trim r ++ 32%N :: trimStart S)
      with (`" "` ++ trim r ++ `" "` ++ trimStart S).
    rewrite trimStart_app_blank by assumption.
    rewrite trimStart_app_solid by (rewrite blank_trim; assumption).
    rewrite trimStart_trim, !app_assoc.
    rewrite trimEnd_app_solid by (rewrite blank_trimStart; assumption).
    rewrite <- !app_assoc. reflexivity.
  - change (trimEnd P ++ [32%N; 32%N]) with (trimEnd P ++ `"  "`).
    rewrite trimStart_app_solid by (rewrite blank_trimEnd; assumption).
    rewrite trimStart_trimEnd, trimEnd_app_blank by reflexivity.
    apply trimEnd_trim.
  - change (trimEnd P ++ 32%N :: 32%N :: trimStart S)
      with (trimEnd P ++ `"  "` ++ trimStart S).
    rewrite trimStart_app_solid by (rewrite blank_trimEnd; assumption).
    rewrite trimStart_trimEnd, !app_assoc.
    rewrite trimEnd_app_solid by (rewrite blank_trimStart; assumption).
    rewrite <- !app_assoc. reflexivity.
  - change (trimEnd P ++ 32%N :: trim r ++ [32%N])
      with (trimEnd P ++ `" "` ++ trim r ++ `" "`).
    rewrite trimStart_app_solid by (rewrite blank_trimEnd; assumption).
    rewrite trimStart_trimEnd.
    rewrite !app_assoc, trimEnd_app_blank by assumption.
    rewrite trimEnd_app_solid by (rewrite blank_trim; assumption).
    rewrite trimEnd_trim, <- !app_assoc. reflexivity.
  - change (trimEnd P ++ 32%N :: trim r ++ 32%N :: trimStart S)
      with (trimEnd P ++ `" "` ++ trim r ++ `" "` ++ trimStart S).
    rewrite trimStart_app_solid by (rewrite blank_trimEnd; assumption).
    rewrite trimStart_trimEnd, !app_assoc.
    rewrite trimEnd_app_solid by (rewrite blank_trimStart; assumption).
    rewrite <- !app_assoc. reflexivity.
Qed.

Lemma nonEmpty_trim (s : jsstring) :
  Spec.nonEmpty (trim s) = if blank_dec s then false else true.
Proof.
  destruct (blank_dec s) as [H|H].
  - apply trim_blank in H. rewrite H. reflexivity.
  - destruct (trim s) eqn:E; [|reflexivity].
    apply trim_blank in E. contradiction.
Qed.

Lemma padded_join (P r S : jsstring) :
  ~ blank r \/ blank P \/ blank S ->
  trim (trimEnd P ++ `" "` ++ trim r ++ `" "` ++ trimStart S)
  = join `" "` (filter Spec.nonEmpty [trim P; trim r; trim S]).
Proof.
  intros H. rewrite padded_cases. simpl filter. rewrite !nonEmpty_trim.
  destruct (blank_dec P), (blank_dec r), (blank_dec S); simpl;
    try reflexivity.
  - apply trim_blank. assumption.
  - tauto.
Qed.

Lemma padded_double_space (P r S : jsstring) :
  ~ blank P -> blank r -> ~ blank S ->
  trim (trimEnd P ++ `" "` ++ trim r ++ `" "` ++ trimStart S)
  = trim P ++ `"  "` ++ trim S.
Proof.
  intros HP Hr HS. rewrite padded_cases.
  destruct (blank_dec P), (blank_dec r), (blank_dec S);
    try contradiction. reflexivity.
Qed.

(** ** Operators, free text and toggles at the edges *)

Section EdgeCases.

Variable stringifyToken : FilterToken -> jsstring.

(** X5.  After UPDATE_FILTER_OP the token never holds the not-equal
    operator: it is negated exactly when not-equal was asked for, and then
    its operator is the default one.  What the token's operator and
    negation were before does not matter: a second change gives the token
    and the query that it would have given on the original token, and
    setting the default operator gives back a token that was plain. *)
Theorem modify_filter_operator_normalizes
  (state : QueryBuilderState) (Q : jsstring) (token : FilterToken)
  (op op' : TermOperator) :
  let token1 := snd (modifyFilterOperator stringifyToken Q token op) in
  operator token1 <> NOT_EQUAL
  /\ (negated token1 = true <-> op = NOT_EQUAL)
  /\ (negated token1 = true -> operator token1 = DEFAULT)
  /\ snd (modifyFilterOperator stringifyToken (query state) token1 op')
     = snd (modifyFilterOperator stringifyToken (query state) token op')
  /\ reducer stringifyToken state (UpdateFilterOpAction token1 op')
     = reducer stringifyToken state (UpdateFilterOpAction token op')
  /\ (operator token = DEFAULT -> negated token = false ->
      snd (modifyFilterOperator stringifyToken (query state) token1 DEFAULT)
      = token).
Proof.
  simpl. split; [|split; [|split; [|split; [|split]]]].
  - destruct op; simpl; discriminate.
  - destruct op; simpl; split; congruence.
  - destruct op; simpl; congruence.
  - reflexivity.
  - reflexivity.
  - intros E1 E2. destruct token; simpl in *. subst. reflexivity.
Qed.

(** X6.  Unless the replacement is blank while text that is not blank
    stands on both sides of the span, UPDATE_FREE_TEXT returns the trimmed
    text before the span, the trimmed replacement and the trimmed text
    after the span, leaving out the empty ones and putting one space
    between the rest.  This holds for offsets of any size. *)
Theorem update_free_text_joins_parts
  (state : QueryBuilderState) (token : TokenResult) (r : jsstring) :
  let P := substring (query state) 0 (offset (start (location token))) in
  let S := substring_from (query state) (offset (end_ (location token))) in
  ~ blank r \/ blank P \/ blank S ->
  reducer stringifyToken state (UpdateFreeTextAction token r)
  = Normal {| query :=
      join `" "` (filter Spec.nonEmpty [trim P; trim r; trim S]) |}.
Proof.
  intros P S H. unfold reducer; simpl.
  unfold updateFreeText, replaceTokenWithPadding.
  fold P S. rewrite (padded_join P r S H). reflexivity.
Qed.

(** X7.  When the replacement is blank and text that is not blank stands
    on both sides of the span, UPDATE_FREE_TEXT returns the trimmed text
    before the span, two spaces, and the trimmed text after it. *)
Theorem update_free_text_blank_between
  (state : QueryBuilderState) (token : TokenResult) (r : jsstring) :
  let P := substring (query state) 0 (offset (start (location token))) in
  let S := substring_from (query state) (offset (end_ (location token))) in
  ~ blank P -> blank r -> ~ blank S ->
  reducer stringifyToken state (UpdateFreeTextAction token r)
  = Normal {| query := trim P ++ `"  "` ++ trim S |}.
Proof.
  intros P S HP Hr HS. unfold reducer; simpl.
  unfold updateFreeText, replaceTokenWithPadding.
  fold P S. rewrite (padded_double_space P r S HP Hr HS). reflexivity.
Qed.

(** X8.  TOGGLE_FILTER_VALUE with the empty string adds nothing and takes
    nothing away: it writes the list rule's literal for the values the
    token already has. *)
Theorem toggle_empty_candidate_keeps_values
  (state : QueryBuilderState) (f : FilterToken) :
  reducer stringifyToken state (MultiSelectFilterValueAction f [])
  = Normal {| query :=
      replaceQueryToken (query state) (value f)
        (Spec.serialize (Spec.content (value f))) |}
  /\ uniqNonEmptyValues (Spec.toggled (value f) [])
     = uniqNonEmptyValues (Spec.content (value f)).
Proof.
  assert (K : uniqNonEmptyValues (Spec.toggled (value f) [])
              = uniqNonEmptyValues (Spec.content (value f))).
  { rewrite toggled_flip, uniqNonEmptyValues_flip.
    unfold Spec.flipKept. simpl. rewrite app_nil_r.
    apply filter_neq_id, uniqNonEmptyValues_no_empty. }
  split; [|exact K].
  unfold reducer; simpl. rewrite multiSelectTokenValue_toggled.
  rewrite (serialize_kept _ _ K). reflexivity.
Qed.

(** X9.  TOGGLE_FILTER_VALUE with a candidate that is not empty on a
    scalar value.  A scalar whose text is empty gets the bare candidate: no
    list with an empty slot is written.  A scalar whose text is not empty
    and differs from the candidate becomes the bracketed pair of the text
    and the candidate. *)
Theorem toggle_on_scalar_writes
  (state : QueryBuilderState) (f : FilterToken) (v : jsstring) :
  isListType (type (value f)) = false -> v <> [] ->
  (text (value f) = [] ->
     reducer stringifyToken state (MultiSelectFilterValueAction f v)
     = Normal {| query := replaceQueryToken (query state) (value f) v |})
  /\ (text (value f) <> [] -> text (value f) <> v ->
     reducer stringifyToken state (MultiSelectFilterValueAction f v)
     = Normal {| query :=
         replaceQueryToken (query state) (value f)
           (`"["` ++ text (value f) ++ `","` ++ v ++ `"]"`) |}).
Proof.
  intros L Hv. unfold reducer; simpl.
  rewrite multiSelectTokenValue_toggled. unfold Spec.toggled. rewrite L.
  split.
  - intros E. rewrite E.
    destruct v as [|c v]; [congruence|]. reflexivity.
  - intros Ht Hd. apply eqb_neq in Hd. rewrite Hd.
    apply nonEmpty_true in Ht. apply nonEmpty_true in Hv.
    unfold Spec.serialize. cbn [filter]. rewrite Ht, Hv.
    cbn [Spec.dedupe filter]. rewrite eqb_sym in Hd. rewrite Hd.
    cbn [negb join]. rewrite <- !app_assoc. reflexivity.
Qed.

End EdgeCases.

(** ** Deleting the last value *)

Lemma uniqNonEmptyValues_app_one (l : list jsstring) (x : jsstring) :
  uniqNonEmptyValues (l ++ [x])
  = uniqNonEmptyValues l
    ++ (if Spec.nonEmpty x && negb (includes l x) then [x] else []).
Proof.
  rewrite !uniqNonEmptyValues_dedupe, filter_app. simpl.
  destruct (Spec.nonEmpty x) eqn:Ex; simpl.
  - rewrite dedupe_app_one. f_equal.
    replace (includes (filter Spec.nonEmpty l) x) with (includes l x);
      [destruct (includes l x); reflexivity|].
    destruct (includes l x) eqn:E; symmetry.
    + apply includes_In. apply filter_In.
      split; [apply includes_In; exact E | exact Ex].
    + apply includes_not_In. rewrite filter_In.
      apply includes_not_In in E. tauto.
  - rewrite !app_nil_r. reflexivity.
Qed.



Lemma deleteLastMultiSelectTokenValue_serialize
  (state : QueryBuilderState) (f : FilterToken) :
  deleteLastMultiSelectTokenValue state f
  = {| query := replaceQueryToken (query state) (value f)
        (Spec.serialize
           (if isListType (type (value f))
            then removelast (List.map itemText (items (value f)))
            else [])) |}.
Proof.
  unfold deleteLastMultiSelectTokenValue, slice_0_m1.
  destruct (isListType (type (value f)));
    rewrite updateFilterMultipleValues_serialize.
  - rewrite map_removelast. reflexivity.
  - reflexivity.
Qed.

Lemma trim_idem (s : jsstring) : trim (trim s) = trim s.
Proof. unfold trim at 1. rewrite trimStart_trim. apply trimEnd_trim. Qed.

Lemma trim_app_blank_r (A B : jsstring) :
  blank B -> trim (trim A ++ B) = trim A.
Proof.
  intros HB. destruct (blank_dec A) as [HA|HA].
  - apply trim_blank in HA. rewrite HA. simpl. apply trim_blank. exact HB.
  - unfold trim at 1.
    rewrite trimStart_app_solid by (rewrite blank_trim; exact HA).
    rewrite trimStart_trim, trimEnd_app_blank by exact HB.
    apply trimEnd_trim.
Qed.

Lemma trim_blank_app_l (A B : jsstring) :
  blank B -> trim (B ++ trim A) = trim A.
Proof.
  intros HB. unfold trim at 1.
  rewrite trimStart_app_blank by exact HB.
  rewrite trimStart_trim. apply trimEnd_trim.
Qed.

Lemma blank_app (A B : jsstring) : blank (A ++ B) <-> blank A /\ blank B.
Proof.
  rewrite !blank_forallb, forallb_app, andb_true_iff. tauto.
Qed.

Section Compositions.

Variable stringifyToken : FilterToken -> jsstring.


(** X11.  Deleting the last value undoes an addition.  When a candidate
    that is not empty and is not among the token's values is toggled in,
    DELETE_LAST_MULTI_SELECT_FILTER_VALUE on the token re-parsed from the
    result writes the list rule's literal for the original values. *)
Theorem delete_last_undoes_added_value
  (state' : QueryBuilderState) (f f' : FilterToken) (v : jsstring) :
  v <> [] -> ~ In v (Spec.content (value f)) ->
  Spec.reparsed (Spec.toggled (value f) v) (value f') ->
  Spec.toggled (value f) v = Spec.content (value f) ++ [v]
  /\ reducer stringifyToken state' (DeleteLastMultiSelectFilterValueAction f')
     = Normal {| query :=
         replaceQueryToken (query state') (value f')
           (Spec.serialize (Spec.content (value f))) |}.
Proof.
  intros Hv Hn H.
  assert (T : Spec.toggled (value f) v = Spec.content (value f) ++ [v]).
  { rewrite toggled_flip. unfold Spec.flip.
    apply includes_not_In in Hn. rewrite Hn. reflexivity. }
  split; [exact T|].
  unfold reducer; simpl. rewrite deleteLastMultiSelectTokenValue_serialize.
  do 2 f_equal. f_equal. apply serialize_kept.
  unfold Spec.reparsed in H.
  rewrite <- uniqNonEmptyValues_dedupe, T, uniqNonEmptyValues_app_one in H.
  apply nonEmpty_true in Hv. apply includes_not_In in Hn.
  rewrite Hv, Hn in H. simpl in H.
  destruct (uniqNonEmptyValues (Spec.content (value f))) as [|x N] eqn:E.
  - simpl in H. destruct H as [-> _]. reflexivity.
  - assert (H' : isListType (type (value f')) = true
                 /\ List.map itemText (items (value f')) = (x :: N) ++ [v]).
    { destruct N; exact H. }
    destruct H' as [-> ->]. rewrite removelast_last, <- E.
    apply uniqNonEmptyValues_idem.
Qed.

(** X13.  A second free-text edit overwrites the first.  When the text
    before the span, the replacement and the text after the span are not
    blank, the result is the three trimmed parts with single spaces
    between them; the span that starts one past the trimmed prefix and
    runs over the trimmed replacement holds that replacement, and
    UPDATE_FREE_TEXT on a token with that span gives, for any new text,
    what UPDATE_FREE_TEXT with the new text gives on the original query. *)
Theorem update_free_text_overwrites
  (state : QueryBuilderState) (token token' : TokenResult) (r r2 : jsstring) :
  let P := substring (query state) 0 (offset (start (location token))) in
  let S := substring_from (query state) (offset (end_ (location token))) in
  ~ blank P -> ~ blank r -> ~ blank S ->
  offset (start (location token')) = JS.length (trim P) + 1 ->
  offset (end_ (location token'))
  = JS.length (trim P) + 1 + JS.length (trim r) ->
  let state1 :=
    {| query := trim P ++ `" "` ++ trim r ++ `" "` ++ trim S |} in
  reducer stringifyToken state (UpdateFreeTextAction token r) = Normal state1
  /\ substring (query state1) (offset (start (location token')))
       (offset (end_ (location token'))) = trim r
  /\ reducer stringifyToken state1 (UpdateFreeTextAction token' r2)
     = reducer stringifyToken state (UpdateFreeTextAction token r2).
Proof.
  intros P S HP Hr HS Es Ee state1.
  assert (R1 : reducer stringifyToken state (UpdateFreeTextAction token r)
               = Normal state1).
  { unfold reducer; simpl. unfold updateFreeText, replaceTokenWithPadding.
    fold P S. rewrite padded_cases.
    destruct (blank_dec P), (blank_dec r), (blank_dec S);
      try contradiction. reflexivity. }
  assert (Q1 : query state1 = (trim P ++ `" "`) ++ trim r ++ (`" "` ++ trim S)).
  { simpl. rewrite <- !app_assoc. reflexivity. }
  assert (Ls : offset (start (location token')) = JS.length (trim P ++ `" "`)).
  { rewrite Es, length_app. reflexivity. }
  assert (Le : offset (end_ (location token'))
               = JS.length (trim P ++ `" "`) + JS.length (trim r)).
  { rewrite Ee, length_app. reflexivity. }
  pose proof (length_nonneg (trim P)) as N1.
  pose proof (length_nonneg (trim r)) as N2.
  pose proof (length_nonneg (trim S)) as N3.
  pose proof (length_nonneg `" "`) as N4.
  assert (P1 : substring (query state1) 0 (offset (start (location token')))
               = trim P ++ `" "`).
  { rewrite substring_prefix, Ls, Q1.
    - apply upto_app.
    - rewrite Ls, Q1, !length_app. lia. }
  assert (S1 : substring_from (query state1) (offset (end_ (location token')))
               = `" "` ++ trim S).
  { rewrite substring_suffix, Le, Q1.
    - rewrite <- length_app, app_assoc. apply from_app.
    - rewrite Le, Q1, !length_app. lia. }
  split; [exact R1|]. split.
  - rewrite Ls, Le, Q1. apply substring_app_mid.
  - unfold reducer; simpl. unfold updateFreeText, replaceTokenWithPadding.
    fold P S.
    change (trim P ++ 32%N :: trim r ++ 32%N :: trim S) with (query state1).
    rewrite P1, S1, !padded_cases.
    rewrite (trim_app_blank_r P `" "` blank_space).
    rewrite (trim_blank_app_l S `" "` blank_space).
    assert (HP1 : ~ blank (trim P ++ `" "`)).
    { rewrite blank_app, blank_trim. tauto. }
    assert (HS1 : ~ blank (`" "` ++ trim S)).
    { rewrite blank_app, blank_trim. tauto. }
    destruct (blank_dec P), (blank_dec S), (blank_dec (trim P ++ `" "`)),
      (blank_dec (`" "` ++ trim S)); try contradiction.
    reflexivity.
Qed.

End Compositions.

(** ** The audit log list *)

(** X12.  The avatar and the name of an audit log entry go together: each
    is absent exactly when the entry has no actor.  A name with the staff
    tag always comes with the system avatar; the actor's own avatar always
    comes with the plain name of that actor.  The converse of the first
    fails: an actor named "Sentry" without e-mail who is no superuser gets
    the system avatar and the plain name. *)
Theorem audit_log_displays_agree (logEntryUser : option AuditLog.User) :
  (AuditLog.getAvatarDisplay logEntryUser = None <-> logEntryUser = None)
  /\ (AuditLog.addUsernameDisplay logEntryUser = None <-> logEntryUser = None)
  /\ (forall shown,
        AuditLog.addUsernameDisplay logEntryUser
        = Some (AuditLog.NameWithStaffTag shown) ->
        AuditLog.getAvatarDisplay logEntryUser = Some AuditLog.SentryAvatar)
  /\ (forall user,
        AuditLog.getAvatarDisplay logEntryUser
        = Some (AuditLog.UserAvatar user) ->
        logEntryUser = Some user
        /\ AuditLog.addUsernameDisplay logEntryUser
           = Some (AuditLog.Name (AuditLog.name user)))
  /\ (forall user,
        logEntryUser = Some user ->
        AuditLog.isSuperuser user = false ->
        AuditLog.name user = `"Sentry"` ->
        AuditLog.email user = None ->
        AuditLog.getAvatarDisplay logEntryUser = Some AuditLog.SentryAvatar
        /\ AuditLog.addUsernameDisplay logEntryUser
           = Some (AuditLog.Name `"Sentry"`)).
Proof.
  unfold AuditLog.getAvatarDisplay, AuditLog.addUsernameDisplay.
  destruct logEntryUser as [u|].
  - split; [|split; [|split; [|split]]].
    + split; [|discriminate]. destruct (_ || _); discriminate.
    + split; [|discriminate]. destruct (AuditLog.isSuperuser u); discriminate.
    + intros shown. destruct (AuditLog.isSuperuser u); [reflexivity|discriminate].
    + intros user. destruct (AuditLog.isSuperuser u); simpl; [discriminate|].
      destruct (_ && _); [discriminate|].
      intros E. injection E as <-. auto.
    + intros user E Hs Hn He. injection E as <-.
      rewrite Hs, Hn, He. split; reflexivity.
  - split; [|split; [|split; [|split]]]; try tauto; try discriminate.
Qed.

(** ** The further properties at sample inputs *)

Lemma replace_query_token_clamps_offsets_sample :
  JS.length `"a b"` <= 5 /\ JS.length `"a b"` <= 9
  /\ removeQueryToken `"a b"` (Sample.word FREE_TEXT "gone" 5 9) = `"a b"`
  /\ replaceQueryToken `"a b"` (Sample.word FREE_TEXT "gone" 5 9) `"c"`
     = `"a bc"`.
Proof.
  assert (H1 : JS.length `"a b"` <= 5) by (cbn; lia).
  assert (H2 : JS.length `"a b"` <= 9) by (cbn; lia).
  destruct (replace_query_token_clamps_offsets `"a b"`
              (Sample.word FREE_TEXT "gone" 5 9) `"c"`)
    as (_ & _ & _ & K & _).
  destruct (K H1 H2) as [E1 E2].
  split; [exact H1|]. split; [exact H2|]. split; [exact E1 | exact E2].
Defined.

Lemma clearing_paths_agree_sample :
  isListType (type (value Sample.assigned_team)) = false
  /\ reducer Sample.stringifySample {| query := `"assigned:team"` |}
       (DeleteLastMultiSelectFilterValueAction Sample.assigned_team)
     = Normal {| query := `"assigned:"` |}.
Proof.
  split; [reflexivity|].
  destruct (clearing_paths_agree Sample.stringifySample
              {| query := `"assigned:team"` |}
              (value Sample.assigned_team) Sample.assigned_team `"team"`)
    as (_ & K & _).
  rewrite (K eq_refl). reflexivity.
Defined.

Lemma update_token_value_with_current_text_sample :
  Spec.inBounds `"a b"` (Sample.span 2 3)
  /\ reducer Sample.stringifySample {| query := `"a b"` |}
       (UpdateTokenValueAction (Sample.word FREE_TEXT "b" 2 3) `"b"`)
     = Normal {| query := `"a b"` |}.
Proof.
  assert (H : Spec.inBounds `"a b"` (Sample.span 2 3)) by in_bounds.
  split; [exact H|].
  exact (update_token_value_with_current_text Sample.stringifySample
           {| query := `"a b"` |} (Sample.word FREE_TEXT "b" 2 3) H).
Defined.

Lemma update_token_value_overwrites_sample :
  Spec.inBounds `"k:x"` (Sample.span 2 3)
  /\ reducer Sample.stringifySample {| query := `"k:abc"` |}
       (UpdateTokenValueAction (Sample.word VALUE_TEXT "abc" 2 5) `"z"`)
     = Normal {| query := `"k:z"` |}.
Proof.
  assert (H : Spec.inBounds `"k:x"` (Sample.span 2 3)) by in_bounds.
  split; [exact H|].
  destruct (update_token_value_overwrites Sample.stringifySample
              {| query := `"k:x"` |} (Sample.word VALUE_TEXT "x" 2 3)
              (Sample.word VALUE_TEXT "abc" 2 5) `"abc"` `"z"`
              H eq_refl eq_refl)
    as (_ & _ & _ & K & _).
  exact K.
Defined.

Lemma modify_filter_operator_normalizes_sample :
  operator Sample.assigned_me = DEFAULT
  /\ negated Sample.assigned_me = false
  /\ snd (modifyFilterOperator Sample.stringifySample `"!assigned:me"`
            (snd (modifyFilterOperator Sample.stringifySample `"assigned:me"`
                    Sample.assigned_me NOT_EQUAL))
            DEFAULT)
     = Sample.assigned_me.
Proof.
  split; [reflexivity|]. split; [reflexivity|].
  destruct (modify_filter_operator_normalizes Sample.stringifySample
              {| query := `"!assigned:me"` |} `"assigned:me"`
              Sample.assigned_me NOT_EQUAL DEFAULT)
    as (_ & _ & _ & _ & _ & K).
  exact (K eq_refl eq_refl).
Defined.

Lemma update_free_text_joins_parts_sample :
  (~ blank `"x"`
   \/ blank (substring `"a b"` 0 1) \/ blank (substring_from `"a b"` 2))
  /\ reducer Sample.stringifySample {| query := `"a b"` |}
       (UpdateFreeTextAction (Sample.word SPACES " " 1 2) `"x"`)
     = Normal {| query := `"a x b"` |}.
Proof.
  assert (H : ~ blank `"x"`
              \/ blank (substring `"a b"` 0 1)
              \/ blank (substring_from `"a b"` 2)).
  { left. unfold blank. simpl. discriminate. }
  split; [exact H|].
  exact (update_free_text_joins_parts Sample.stringifySample
           {| query := `"a b"` |} (Sample.word SPACES " " 1 2) `"x"` H).
Defined.

Lemma update_free_text_blank_between_sample :
  ~ blank (substring `"a   b"` 0 1)
  /\ blank `"  "`
  /\ ~ blank (substring_from `"a   b"` 4)
  /\ reducer Sample.stringifySample {| query := `"a   b"` |}
       (UpdateFreeTextAction (Sample.word SPACES "   " 1 4) `"  "`)
     = Normal {| query := `"a  b"` |}.
Proof.
  assert (H1 : ~ blank (substring `"a   b"` 0 1))
    by (unfold blank; simpl; discriminate).
  assert (H2 : blank `"  "`) by reflexivity.
  assert (H3 : ~ blank (substring_from `"a   b"` 4))
    by (unfold blank; simpl; discriminate).
  split; [exact H1|]. split; [exact H2|]. split; [exact H3|].
  exact (update_free_text_blank_between Sample.stringifySample
           {| query := `"a   b"` |} (Sample.word SPACES "   " 1 4) `"  "`
           H1 H2 H3).
Defined.

Lemma toggle_on_scalar_writes_sample :
  `"me"` <> []
  /\ reducer Sample.stringifySample {| query := `"assigned:"` |}
       (MultiSelectFilterValueAction
          (Sample.filterOf "assigned:" (Sample.word KEY_SIMPLE "assigned" 0 8)
             (Sample.word VALUE_TEXT EmptyString 9 9))
          `"me"`)
     = Normal {| query := `"assigned:me"` |}.
Proof.
  assert (H : `"me"` <> []) by discriminate.
  split; [exact H|].
  destruct (toggle_on_scalar_writes Sample.stringifySample
              {| query := `"assigned:"` |}
              (Sample.filterOf "assigned:"
                 (Sample.word KEY_SIMPLE "assigned" 0 8)
                 (Sample.word VALUE_TEXT EmptyString 9 9))
              `"me"` eq_refl H)
    as [K _].
  rewrite (K eq_refl). reflexivity.
Defined.


Lemma delete_last_undoes_added_value_sample :
  `"me"` <> []
  /\ ~ In `"me"` (Spec.content (value Sample.assigned_team))
  /\ Spec.reparsed (Spec.toggled (value Sample.assigned_team) `"me"`)
       (value Sample.assigned_team_me)
  /\ reducer Sample.stringifySample {| query := `"assigned:[team,me]"` |}
       (DeleteLastMultiSelectFilterValueAction Sample.assigned_team_me)
     = Normal {| query := `"assigned:team"` |}.
Proof.
  assert (H1 : `"me"` <> []) by discriminate.
  assert (H2 : ~ In `"me"` (Spec.content (value Sample.assigned_team))).
  { simpl. intros [H|[]]. discriminate H. }
  assert (H3 : Spec.reparsed (Spec.toggled (value Sample.assigned_team) `"me"`)
                 (value Sample.assigned_team_me)).
  { unfold Spec.reparsed. simpl. split; reflexivity. }
  split; [exact H1|]. split; [exact H2|]. split; [exact H3|].
  destruct (delete_last_undoes_added_value Sample.stringifySample
              {| query := `"assigned:[team,me]"` |}
              Sample.assigned_team Sample.assigned_team_me `"me"` H1 H2 H3)
    as [_ K].
  rewrite K. reflexivity.
Defined.

Lemma update_free_text_overwrites_sample :
  ~ blank (substring `"a b c"` 0 2)
  /\ ~ blank `"x"`
  /\ ~ blank (substring_from `"a b c"` 3)
  /\ reducer Sample.stringifySample {| query := `"a x c"` |}
       (UpdateFreeTextAction (Sample.word FREE_TEXT "x" 2 3) `"y"`)
     = Normal {| query := `"a y c"` |}.
Proof.
  assert (H1 : ~ blank (substring `"a b c"` 0 2))
    by (unfold blank; simpl; discriminate).
  assert (H2 : ~ blank `"x"`) by (unfold blank; simpl; discriminate).
  assert (H3 : ~ blank (substring_from `"a b c"` 3))
    by (unfold blank; simpl; discriminate).
  split; [exact H1|]. split; [exact H2|]. split; [exact H3|].
  destruct (update_free_text_overwrites Sample.stringifySample
              {| query := `"a b c"` |} (Sample.word FREE_TEXT "b" 2 3)
              (Sample.word FREE_TEXT "x" 2 3) `"x"` `"y"`
              H1 H2 H3 eq_refl eq_refl)
    as (_ & _ & K).
  exact (eq_trans K eq_refl).
Defined.

Lemma audit_log_displays_agree_sample :
  AuditLog.getAvatarDisplay
    (Some {| AuditLog.isSuperuser := false; AuditLog.name := `"Sentry"`;
             AuditLog.email := None |})
  = Some AuditLog.SentryAvatar
  /\ AuditLog.addUsernameDisplay
       (Some {| AuditLog.isSuperuser := false; AuditLog.name := `"Sentry"`;
                AuditLog.email := None |})
     = Some (AuditLog.Name `"Sentry"`).
Proof.
  destruct (audit_log_displays_agree
              (Some {| AuditLog.isSuperuser := false;
                       AuditLog.name := `"Sentry"`;
                       AuditLog.email := None |}))
    as (_ & _ & _ & _ & K).
  exact (K _ eq_refl eq_refl eq_refl eq_refl).
Defined.
